(** * Emulation layer for Vulkan ML extensions: constant decoding and
      descriptor substitution

    A shallow embedding of

    - [GraphPassBase::getConstScalar], [getFlattenedCompositeConstant] and
      [getConstVector] of [graph/spirv_pass.hpp], and
    - [substituteTensorBinding], [substituteTensorWriteDescriptorSet] and
      [substituteTensorDescriptorPoolSizes] of [tensor/descriptor_binding.hpp],

    together with the properties the specification states about them.

    Conventions.  A C++ unsigned w-bit integer is a [Z] in [0, 2^w) and its
    arithmetic is written with the wrap-around spelled out ([wrap]); a signed
    one is a [Z] in [-2^(w-1), 2^(w-1)) ([to_signed]).  A C++ call either
    returns, throws, stops at a failing [assert] (assertions are modelled as
    enabled) or has undefined behaviour: the four constructors of [outcome].
    A [std::vector] that is resized to a length computed from the module
    checks that length against its [max_size()] and asks the free store for
    the storage; the few elements added by [push_back] are taken to find
    theirs. *)

From Stdlib Require Import ZArith Lia.
From stdpp Require Import base tactics option list numbers gmap.

Local Open Scope Z_scope.
Set Warnings "-register-all".

(** ** Fixed-width integers *)

(** Conversion to an unsigned [w]-bit integer. *)
Definition wrap (w z : Z) : Z := z mod 2 ^ w.

(** Conversion to a signed [w]-bit integer (two's complement), as in
    [int8_t(x)], [int16_t(x)], [int32_t(x)], [int64_t(x)]. *)
Definition to_signed (w z : Z) : Z :=
  let m := wrap w z in
  if m <? 2 ^ (w - 1) then m else m - 2 ^ w.

(** [uint32_t] addition. *)
Definition add32 (a b : Z) : Z := wrap 32 (a + b).

(** Value range of an integral type of [w] bits. *)
Definition in_range (w : Z) (signed : bool) (z : Z) : bool :=
  if signed then (- 2 ^ (w - 1) <=? z) && (z <? 2 ^ (w - 1))
  else (0 <=? z) && (z <? 2 ^ w).

(** ** The SPIR-V type and constant model ([spvtools::opt::analysis]) *)

Inductive Type_ : Type :=
| Integer (width : Z) (IsSigned : bool)
| Float (width : Z)
| Bool
| TensorARM_type (element_type : Type_) (rank_id shape_id : Z)
| OtherType (kind : Z).

(** [analysis::TensorARM], the class of the tensor types. *)
Record TensorARM : Type := {
  element_type : Type_;
  rank_id : Z;
  shape_id : Z;
}.

Definition AsTensorARM (t : Type_) : option TensorARM :=
  match t with
  | TensorARM_type e r s => Some {| element_type := e; rank_id := r; shape_id := s |}
  | _ => None
  end.

(** The constant classes.  An [IntConstant] always has an [Integer] type and
    a [FloatConstant] a [Float] type, so they carry the fields of that type;
    [words] are the 32-bit literal words of the scalar. *)
Inductive Constant : Type :=
| IntConstant (width : Z) (IsSigned : bool) (words : list Z)
| FloatConstant (width : Z) (words : list Z)
| BoolConstant (value : bool)
| CompositeConstant (type : Type_) (components : list Constant)
| NullConstant (type : Type_).

Definition Constant_type (c : Constant) : Type_ :=
  match c with
  | IntConstant w s _ => Integer w s
  | FloatConstant w _ => Float w
  | BoolConstant _ => Bool
  | CompositeConstant t _ => t
  | NullConstant t => t
  end.

(** ** Outcomes of a call *)

(** The [std::runtime_error]s of the two headers, by message:
    - "Unsupported integer constant width: <width>"
    - "Unsupported constant float width: <width>"
    - "Unsupported constant type: <kind of the type>"
    - "Write descriptor is missing tensor descriptor tensor info"
    and the two exceptions of [std::vector::resize]: [std::length_error] and
    [std::bad_alloc]. *)
Inductive exception : Type :=
| UnsupportedIntegerConstantWidth (width : Z)
| UnsupportedConstantFloatWidth (width : Z)
| UnsupportedConstantType (ty : Type_)
| MissingTensorInfo
| length_error
| bad_alloc.

Inductive outcome (A : Type) : Type :=
| Ok (a : A)
| Throw (e : exception)
| AssertionFailed
| Undefined.

Arguments Ok {A} a.
Arguments Throw {A} e.
Arguments AssertionFailed {A}.
Arguments Undefined {A}.

Definition outcome_bind {A B} (f : A → outcome B) (x : outcome A) : outcome B :=
  match x with
  | Ok a => f a
  | Throw e => Throw e
  | AssertionFailed => AssertionFailed
  | Undefined => Undefined
  end.

#[global] Instance outcome_mbind : MBind outcome := @outcome_bind.
#[global] Instance outcome_mret : MRet outcome := @Ok.
#[global] Instance outcome_fmap : FMap outcome :=
  λ A B f, outcome_bind (λ a, Ok (f a)).

(** [assert(b)]. *)
Definition assert (b : bool) : outcome unit :=
  if b then Ok () else AssertionFailed.

(** Dereference of a pointer that may be null, and [v[i]] on a vector. *)
Definition deref {A} (p : option A) : outcome A :=
  match p with Some a => Ok a | None => Undefined end.

(** ** The target type [T] of the decoders *)

(** What the templates use of their arithmetic type parameter [T]:
    the conversions [T(x)] from an integer, from a [float16], a [float] and a
    [double] (given by their bit patterns), the value-initialised [T{}],
    [static_cast<size_t>(t)], [sizeof(T)] and [std::vector<T>::max_size()]. *)
Record Arithmetic (T : Type) : Type := {
  from_integer : Z → T;
  from_float16 : Z → outcome T;
  from_float : Z → outcome T;
  from_double : Z → outcome T;
  value_init : T;
  to_size_t : T → outcome Z;
  sizeof : Z;
  max_size : Z;
}.

Arguments from_integer {T} _ _.
Arguments from_float16 {T} _ _.
Arguments from_float {T} _ _.
Arguments from_double {T} _ _.
Arguments value_init {T} _.
Arguments to_size_t {T} _ _.
Arguments sizeof {T} _.
Arguments max_size {T} _.

(** Truncation toward zero of the IEEE-754 binary value with [ebits] exponent
    bits and [mbits] fraction bits whose bit pattern is [raw]; [None] for an
    infinity or a NaN. *)
Definition fp_trunc (ebits mbits raw : Z) : option Z :=
  let frac := raw mod 2 ^ mbits in
  let e := (raw / 2 ^ mbits) mod 2 ^ ebits in
  let negative := Z.testbit raw (ebits + mbits) in
  let bias := 2 ^ (ebits - 1) - 1 in
  if e =? 2 ^ ebits - 1 then None
  else
    let sig := if e =? 0 then frac else frac + 2 ^ mbits in
    let ex := (if e =? 0 then 1 else e) - bias - mbits in
    let mag := if 0 <=? ex then sig * 2 ^ ex else sig / 2 ^ (- ex) in
    Some (if negative then - mag else mag).

(** Floating-point to integral conversion: the value is truncated, and the
    behaviour is undefined when the result does not fit the destination. *)
Definition fp_to_integral (ebits mbits w : Z) (signed : bool) (raw : Z) : outcome Z :=
  match fp_trunc ebits mbits raw with
  | Some z => if in_range w signed z then Ok z else Undefined
  | None => Undefined
  end.

(** The integral types: [integral w true] is [intw_t], [integral w false] is
    [uintw_t].  The largest vector of them has [PTRDIFF_MAX / sizeof(T)]
    elements, the [max_size()] of libstdc++. *)
Definition integral (w : Z) (signed : bool) : Arithmetic Z := {|
  from_integer z := if signed then to_signed w z else wrap w z;
  from_float16 raw := fp_to_integral 5 10 w signed raw;
  from_float raw := fp_to_integral 8 23 w signed raw;
  from_double raw := fp_to_integral 11 52 w signed raw;
  value_init := 0;
  to_size_t t := Ok (wrap 64 t);
  sizeof := Z.max 1 (w / 8);
  max_size := (2 ^ 63 - 1) / Z.max 1 (w / 8);
|}.

Definition int8_t := integral 8 true.
Definition uint8_t := integral 8 false.
Definition int32_t := integral 32 true.
Definition uint32_t := integral 32 false.
Definition int64_t := integral 64 true.

(** ** Accessors of [analysis::Constant] *)

(** [words()[i]], a [uint32_t]. *)
Definition word (words : list Z) (i : nat) : outcome Z :=
  wrap 32 <$> deref (words !! i).

(** [GetU32BitValue()] is [words()[0]] and [GetU64BitValue()] is
    [(uint64_t(words()[1]) << 32) | words()[0]]. *)
Definition GetU32BitValue (words : list Z) : outcome Z := word words 0.

Definition GetU64BitValue (words : list Z) : outcome Z :=
  lo ← word words 0;
  hi ← word words 1;
  Ok (Z.lor (Z.shiftl hi 32) lo).

(** Modelled from the spec: [Constant::GetZeroExtendedValue] belongs to the
    SPIR-V optimizer library and is not under src/.  The spec calls its result
    the zero-extended value of the integer constant: the first literal word
    for a width of at most 32 bits, both words otherwise. *)
Definition GetZeroExtendedValue (c : Constant) : outcome Z :=
  match c with
  | IntConstant width _ words =>
      if width <=? 32 then GetU32BitValue words else GetU64BitValue words
  | _ => AssertionFailed
  end.

(** Modelled from the spec: [Constant::GetSignExtendedValue] belongs to the
    SPIR-V optimizer library and is not under src/.  The spec calls its result
    the sign-extended value: the first literal word read as an [int32_t] for a
    width of at most 32 bits, both words read as an [int64_t] otherwise. *)
Definition GetSignExtendedValue (c : Constant) : outcome Z :=
  match c with
  | IntConstant width _ words =>
      if width <=? 32 then to_signed 32 <$> GetU32BitValue words
      else to_signed 64 <$> GetU64BitValue words
  | _ => AssertionFailed
  end.

(** ** [getConstScalar] *)

Section getConstScalar.
Context {T : Type} (A : Arithmetic T).

(** [template <typename T> T getConstScalar(const analysis::Constant
    *constant, const bool isUnsigned)]. *)
Definition getConstScalar (constant : Constant) (isUnsigned : bool) : outcome T :=
  match constant with
  | IntConstant width IsSigned _ =>
      if IsSigned then
        v ← GetSignExtendedValue constant;
        Ok (from_integer A v)
      else if width =? 8 then
        v ← GetZeroExtendedValue constant;
        Ok (if isUnsigned then from_integer A v else from_integer A (to_signed 8 v))
      else if width =? 16 then
        v ← GetZeroExtendedValue constant;
        Ok (if isUnsigned then from_integer A v else from_integer A (to_signed 16 v))
      else if width =? 32 then
        v ← GetZeroExtendedValue constant;
        Ok (if isUnsigned then from_integer A v else from_integer A (to_signed 32 v))
      else if width =? 64 then
        v ← GetZeroExtendedValue constant;
        Ok (if isUnsigned then from_integer A v else from_integer A (to_signed 64 v))
      else Throw (UnsupportedIntegerConstantWidth width)
  | FloatConstant width words =>
      if width =? 16 then
        w0 ← word words 0;
        from_float16 A (wrap 16 w0)
      else if width =? 32 then
        w0 ← word words 0;
        from_float A w0
      else if width =? 64 then
        bits ← GetU64BitValue words;
        from_double A bits
      else Throw (UnsupportedConstantFloatWidth width)
  | BoolConstant value => Ok (from_integer A (if value then 1 else 0))
  | _ => Throw (UnsupportedConstantType (Constant_type constant))
  end.
End getConstScalar.


(** ** [getFlattenedCompositeConstant] *)

(** [void getFlattenedCompositeConstant(const CompositeConstant *composite,
    std::vector<T> &kernel)]: the vector passed by reference is threaded
    through.  The inner [loop] is the range-for over [GetComponents()]. *)
Fixpoint getFlattenedCompositeConstant {T : Type} (A : Arithmetic T)
    (composite : Constant) (kernel : list T) : outcome (list T) :=
  match composite with
  | CompositeConstant _ components =>
      (fix loop (components : list Constant) (kernel : list T) : outcome (list T) :=
         match components with
         | [] => Ok kernel
         | component :: rest =>
             kernel' ← match component with
                       | CompositeConstant _ _ =>
                           getFlattenedCompositeConstant A component kernel
                       | _ =>
                           v ← getConstScalar A component false;
                           Ok (kernel ++ [v])
                       end;
             loop rest kernel'
         end) components kernel
  | _ => Undefined
  end.

(** ** [getConstVector] *)

(** The opcodes [getConstVector] tells apart. *)
Inductive Op : Type :=
| OpConstantComposite
| OpSpecConstantComposite
| OpConstantCompositeReplicateEXT
| OpSpecConstantCompositeReplicateEXT
| OpConstantNull
| OpOther (opcode : Z).

(** What a pass sees of the module through [context()]: the constant manager
    ([FindDeclaredConstant], no entry for an id without a declared constant),
    the def-use manager ([GetDef(id)->opcode()]) and the type resolver.
    [getTensorType] is declared in the class and defined outside the header;
    it is a parameter of the model.  [allocates] is what the pass sees of the
    free store: whether [operator new] finds storage of that many bytes. *)
Record IRContext : Type := {
  FindDeclaredConstant : gmap Z Constant;
  GetDef : gmap Z Op;
  getTensorType : Z → outcome TensorARM;
  allocates : Z → bool;
}.

(** [std::vector<T>::resize(n, x)], with [n] a [size_t]: a vector that is
    long enough is cut to its first [n] elements; otherwise a length above
    [max_size()] raises [std::length_error], the storage of [n] elements is
    asked of the free store, which raises [std::bad_alloc] when it has none,
    and copies of [x] are appended.  Where the decoder resizes, the vector
    holds no or one element and has no capacity to spare. *)
Definition resize (allocates : Z → bool) {T : Type} (A : Arithmetic T)
    (n : Z) (x : T) (l : list T) : outcome (list T) :=
  if n <=? Z.of_nat (length l) then Ok (take (Z.to_nat n) l)
  else if max_size A <? n then Throw length_error
  else if allocates (n * sizeof A)
       then Ok (l ++ replicate (Z.to_nat n - length l)%nat x)
       else Throw bad_alloc.

(** [std::accumulate(dimensions.begin(), dimensions.end(), size_t{1},
    [](size_t acc, int64_t dim) { return acc * static_cast<size_t>(dim); })]. *)
Definition compositeCount (dimensions : list Z) : Z :=
  fold_left (λ acc dim, wrap 64 (acc * wrap 64 dim)) dimensions 1.

(** A run of the recursive decoder: [None] when the recursion budget of the
    model is used up. *)
Definition run_bind {A B : Type} (f : A → option (outcome B))
    (x : option (outcome A)) : option (outcome B) :=
  match x with
  | None => None
  | Some (Ok a) => f a
  | Some (Throw e) => Some (Throw e)
  | Some AssertionFailed => Some AssertionFailed
  | Some Undefined => Some Undefined
  end.

Notation "x ⇐ e ; k" := (run_bind (λ x, k) e)
  (at level 20, e at level 100, k at level 200, only parsing).

Section getConstVector.
Context (ctx : IRContext).

(** The body of [template <typename T> std::vector<T> getConstVector(const
    uint32_t id)], with [self] for the recursive calls. *)
Definition getConstVector_body
    (self : ∀ T : Type, Arithmetic T → Z → option (outcome (list T)))
    (T : Type) (A : Arithmetic T) (id : Z) : option (outcome (list T)) :=
  constant ⇐ Some (deref (FindDeclaredConstant ctx !! id));
  let kernel : list T := [] in
  match constant with
  | CompositeConstant _ _ =>
      instruction ⇐ Some (deref (GetDef ctx !! id));
      let isSplat :=
        match instruction with
        | OpConstantCompositeReplicateEXT
        | OpSpecConstantCompositeReplicateEXT => true
        | _ => false
        end in
      kernel ⇐ Some (getFlattenedCompositeConstant A constant kernel);
      if isSplat then
        checked ⇐ Some (assert (bool_decide (length kernel = 1%nat)));
        tensorType ⇐ Some (getTensorType ctx id);
        dimensions ⇐ self Z int64_t (shape_id tensorType);
        front ⇐ Some (deref (head kernel));
        Some (resize (allocates ctx) A (compositeCount dimensions) front kernel)
      else Some (Ok kernel)
  | NullConstant type =>
      match AsTensorARM type with
      | Some tensor =>
          shape ⇐ self T A (shape_id tensor);
          checked ⇐ Some (assert (bool_decide (length shape = 1%nat)));
          shape0 ⇐ Some (deref (shape !! 0%nat));
          n ⇐ Some (to_size_t A shape0);
          Some (resize (allocates ctx) A n (value_init A) kernel)
      | None => Some AssertionFailed
      end
  | _ => Some AssertionFailed
  end.

Fixpoint getConstVector (fuel : nat) (T : Type) (A : Arithmetic T) (id : Z)
    : option (outcome (list T)) :=
  match fuel with
  | O => None
  | S fuel => getConstVector_body (getConstVector fuel) T A id
  end.
End getConstVector.

(** ** Vulkan enumerations and records ([vulkan/vulkan.hpp]) *)

Inductive VkDescriptorType : Type :=
| VK_DESCRIPTOR_TYPE_SAMPLER
| VK_DESCRIPTOR_TYPE_COMBINED_IMAGE_SAMPLER
| VK_DESCRIPTOR_TYPE_SAMPLED_IMAGE
| VK_DESCRIPTOR_TYPE_STORAGE_IMAGE
| VK_DESCRIPTOR_TYPE_UNIFORM_TEXEL_BUFFER
| VK_DESCRIPTOR_TYPE_STORAGE_TEXEL_BUFFER
| VK_DESCRIPTOR_TYPE_UNIFORM_BUFFER
| VK_DESCRIPTOR_TYPE_STORAGE_BUFFER
| VK_DESCRIPTOR_TYPE_UNIFORM_BUFFER_DYNAMIC
| VK_DESCRIPTOR_TYPE_STORAGE_BUFFER_DYNAMIC
| VK_DESCRIPTOR_TYPE_INPUT_ATTACHMENT
| VK_DESCRIPTOR_TYPE_TENSOR_ARM.

#[global] Instance VkDescriptorType_eq_dec : EqDecision VkDescriptorType.
Proof. solve_decision. Defined.

Inductive VkImageLayout : Type :=
| VK_IMAGE_LAYOUT_UNDEFINED
| VK_IMAGE_LAYOUT_GENERAL
| VK_IMAGE_LAYOUT_SHADER_READ_ONLY_OPTIMAL
| VK_IMAGE_LAYOUT_TENSOR_ALIASING_ARM.

#[global] Instance VkImageLayout_eq_dec : EqDecision VkImageLayout.
Proof. solve_decision. Defined.

Inductive VkStructureType : Type :=
| VK_STRUCTURE_TYPE_WRITE_DESCRIPTOR_SET
| VK_STRUCTURE_TYPE_OTHER (value : Z).

(** Handles ([VkSampler], [VkImageView], [VkBuffer], [VkDescriptorSet],
    [VkTensorViewARM], ...) are opaque numbers. *)
Definition handle : Type := Z.

Definition VK_WHOLE_SIZE : Z := 2 ^ 64 - 1.
Definition VK_DESCRIPTOR_BINDING_UPDATE_AFTER_BIND_BIT : Z := 1.

(** A pointer held by a descriptor write: null, a caller-owned array (given
    by the elements the callee can read through it), or the address of the
    [k]-th node of the [std::list] that the rewrite returns next to the
    writes.  A list node is a single record: only index 0 can be read
    through its address. *)
Inductive pointer (A : Type) : Type :=
| nullptr
| caller_array (elems : list A)
| list_node (k : nat).

Arguments nullptr {A}.
Arguments caller_array {A} elems.
Arguments list_node {A} k.

Module VkDescriptorSetLayoutBinding.
Record t : Type := mk {
  binding : Z;
  descriptorType : VkDescriptorType;
  descriptorCount : Z;
  stageFlags : Z;
  pImmutableSamplers : pointer handle;
}.

Definition set_descriptorType (ty : VkDescriptorType) (b : t) : t :=
  mk (binding b) ty (descriptorCount b) (stageFlags b) (pImmutableSamplers b).
End VkDescriptorSetLayoutBinding.

Module VkDescriptorPoolSize.
Record t : Type := mk {
  type : VkDescriptorType;
  descriptorCount : Z;
}.

Definition add_descriptorCount (n : Z) (p : t) : t :=
  mk (type p) (add32 (descriptorCount p) n).
End VkDescriptorPoolSize.

Module VkDescriptorImageInfo.
Record t : Type := mk {
  sampler : handle;
  imageView : handle;
  imageLayout : VkImageLayout;
}.
End VkDescriptorImageInfo.

Module VkDescriptorBufferInfo.
Record t : Type := mk {
  buffer : handle;
  offset : Z;
  range : Z;
}.
End VkDescriptorBufferInfo.

(** [VkWriteDescriptorSetTensorARM]: [tensorViewCount] and [pTensorViews]
    together are the list of the views. *)
Module VkWriteDescriptorSetTensorARM.
Record t : Type := mk {
  pTensorViews : list handle;
}.

Definition tensorViewCount (info : t) : nat := length (pTensorViews info).
End VkWriteDescriptorSetTensorARM.

(** A structure of a [pNext] chain: the one whose [sType] is
    [VK_STRUCTURE_TYPE_WRITE_DESCRIPTOR_SET_TENSOR_ARM], or another one.  The
    chain is the list of its structures. *)
Inductive ChainStruct : Type :=
| WriteDescriptorSetTensorARM (info : VkWriteDescriptorSetTensorARM.t)
| OtherStruct (sType : Z).

(** Modelled from the spec: [findType<VkWriteDescriptorSetTensorARM>(pNext,
    VK_STRUCTURE_TYPE_WRITE_DESCRIPTOR_SET_TENSOR_ARM)] of [mlel/utils.hpp],
    which is not under src/: the tensor-view structure attached to the
    extension chain, or null when the chain carries none. *)
Fixpoint findType (pNext : list ChainStruct) : option VkWriteDescriptorSetTensorARM.t :=
  match pNext with
  | [] => None
  | WriteDescriptorSetTensorARM info :: _ => Some info
  | OtherStruct _ :: rest => findType rest
  end.

Module VkWriteDescriptorSet.
Record t : Type := mk {
  sType : VkStructureType;
  pNext : list ChainStruct;
  dstSet : handle;
  dstBinding : Z;
  dstArrayElement : Z;
  descriptorCount : Z;
  descriptorType : VkDescriptorType;
  pImageInfo : pointer VkDescriptorImageInfo.t;
  pBufferInfo : pointer VkDescriptorBufferInfo.t;
  pTexelBufferView : pointer handle;
}.

Definition set_pImageInfo (p : pointer VkDescriptorImageInfo.t) (w : t) : t :=
  mk (sType w) (pNext w) (dstSet w) (dstBinding w) (dstArrayElement w)
     (descriptorCount w) (descriptorType w) p (pBufferInfo w) (pTexelBufferView w).
End VkWriteDescriptorSet.

(** The compile-time configuration: whether [EXPERIMENTAL_MOLTEN_VK_SUPPORT]
    is defined, and the binding offset that mode uses. *)
Record BuildConfig : Type := {
  EXPERIMENTAL_MOLTEN_VK_SUPPORT : bool;
  EXPERIMENTAL_MVK_BUFFER_BINDING_OFFSET : Z;
}.

(** ** [hasTensor] *)

(** The template [hasTensor] reads [obj.descriptorType]; the overload for
    [VkDescriptorPoolSize] reads [obj.type]. *)
Class HasDescriptorType (T : Type) : Type := descriptor_type_of : T → VkDescriptorType.

#[global] Instance binding_has_type : HasDescriptorType VkDescriptorSetLayoutBinding.t :=
  VkDescriptorSetLayoutBinding.descriptorType.
#[global] Instance write_has_type : HasDescriptorType VkWriteDescriptorSet.t :=
  VkWriteDescriptorSet.descriptorType.
#[global] Instance pool_size_has_type : HasDescriptorType VkDescriptorPoolSize.t :=
  VkDescriptorPoolSize.type.

Definition hasTensor {T : Type} `{HasDescriptorType T} (obj : T) : bool :=
  bool_decide (descriptor_type_of obj = VK_DESCRIPTOR_TYPE_TENSOR_ARM).

(** A [for] loop whose body may fail. *)
Fixpoint foldM {S A : Type} (body : S → A → outcome S) (s : S) (l : list A) : outcome S :=
  match l with
  | [] => Ok s
  | a :: l => s' ← body s a; foldM body s' l
  end.

(** ** [substituteTensorBinding] *)

(** The caller's memory the function reaches through its pointer arguments:
    the array behind [pBindings], the structure behind [bindingInfo] and the
    array behind its [pBindingFlags]. *)
Definition loc : Type := positive.

Module VkDescriptorSetLayoutBindingFlagsCreateInfo.
Record t : Type := mk {
  bindingCount : Z;
  pBindingFlags : option loc;
}.
End VkDescriptorSetLayoutBindingFlagsCreateInfo.

Inductive object : Type :=
| BindingArray (elems : list VkDescriptorSetLayoutBinding.t)
| BindingFlagsCreateInfo (info : VkDescriptorSetLayoutBindingFlagsCreateInfo.t)
| BindingFlagsArray (elems : list Z).

Abbreviation heap := (gmap loc object).

(** [pBindings[i]]. *)
Definition load_binding (h : heap) (pBindings : loc) (i : nat)
    : outcome VkDescriptorSetLayoutBinding.t :=
  match h !! pBindings with
  | Some (BindingArray elems) => deref (elems !! i)
  | _ => Undefined
  end.

(** The range [[pBindings, pBindings + bindingCount)]. *)
Definition load_bindings (h : heap) (pBindings : loc) (bindingCount : nat)
    : outcome (list VkDescriptorSetLayoutBinding.t) :=
  foldM (λ v i, b ← load_binding h pBindings i; Ok (v ++ [b])) [] (seq 0 bindingCount).

(** [const_cast<VkDescriptorBindingFlags *>(bindingInfo->pBindingFlags)[i] &=
    static_cast<VkDescriptorBindingFlags>(~VK_DESCRIPTOR_BINDING_UPDATE_AFTER_BIND_BIT)]. *)
Definition clear_update_after_bind (flags : Z) : Z :=
  Z.land flags (wrap 32 (Z.lnot VK_DESCRIPTOR_BINDING_UPDATE_AFTER_BIND_BIT)).

Definition store_cleared_flag (h : heap) (bindingInfo : loc) (i : nat) : outcome heap :=
  match h !! bindingInfo with
  | Some (BindingFlagsCreateInfo info) =>
      pBindingFlags ← deref (VkDescriptorSetLayoutBindingFlagsCreateInfo.pBindingFlags info);
      match h !! pBindingFlags with
      | Some (BindingFlagsArray elems) =>
          flags ← deref (elems !! i);
          Ok (<[pBindingFlags := BindingFlagsArray (<[i := clear_update_after_bind flags]> elems)]> h)
      | _ => Undefined
      end
  | _ => Undefined
  end.

Section substituteTensorBinding.
Context (cfg : BuildConfig).

(** One iteration of the loop over the bindings. *)
Definition substituteTensorBinding_body (pBindings : loc) (bindingInfo : option loc)
    (st : list VkDescriptorSetLayoutBinding.t * heap) (i : nat)
    : outcome (list VkDescriptorSetLayoutBinding.t * heap) :=
  let '(descriptorSetLayoutBindings, h) := st in
  b ← load_binding h pBindings i;
  if hasTensor b then
    let descriptorSetLayoutBindings :=
      alter (VkDescriptorSetLayoutBinding.set_descriptorType
               VK_DESCRIPTOR_TYPE_UNIFORM_BUFFER) i descriptorSetLayoutBindings in
    let descriptorSetLayoutBindings :=
      if EXPERIMENTAL_MOLTEN_VK_SUPPORT cfg then
        descriptorSetLayoutBindings ++
          [VkDescriptorSetLayoutBinding.mk
             (add32 (VkDescriptorSetLayoutBinding.binding b)
                    (EXPERIMENTAL_MVK_BUFFER_BINDING_OFFSET cfg))
             VK_DESCRIPTOR_TYPE_STORAGE_BUFFER
             (VkDescriptorSetLayoutBinding.descriptorCount b)
             (VkDescriptorSetLayoutBinding.stageFlags b)
             nullptr]
      else descriptorSetLayoutBindings in
    match bindingInfo with
    | Some bindingInfo =>
        h ← store_cleared_flag h bindingInfo i;
        Ok (descriptorSetLayoutBindings, h)
    | None => Ok (descriptorSetLayoutBindings, h)
    end
  else Ok (descriptorSetLayoutBindings, h).

(** [substituteTensorBinding(bindingCount, pBindings, bindingInfo)]: the
    returned vector, and the caller's memory after the call. *)
Definition substituteTensorBinding (bindingCount : nat) (pBindings : loc)
    (bindingInfo : option loc) (h : heap)
    : outcome (list VkDescriptorSetLayoutBinding.t * heap) :=
  descriptorSetLayoutBindings ← load_bindings h pBindings bindingCount;
  foldM (substituteTensorBinding_body pBindings bindingInfo)
        (descriptorSetLayoutBindings, h) (seq 0 bindingCount).
End substituteTensorBinding.

(** ** [substituteTensorWriteDescriptorSet] *)

(** The three containers the function fills and returns. *)
Record Rewritten : Type := {
  writes : list VkWriteDescriptorSet.t;
  bufferInfos : list VkDescriptorBufferInfo.t;
  imageInfos : list VkDescriptorImageInfo.t;
}.

(** [p->field] on a pointer of an incoming write. *)
Definition arrow {A : Type} (p : pointer A) : outcome A :=
  match p with
  | caller_array elems => deref (elems !! 0%nat)
  | _ => Undefined
  end.

Definition is_null {A : Type} (p : pointer A) : bool :=
  match p with nullptr => true | _ => false end.

Section substituteTensorWriteDescriptorSet.
Context (cfg : BuildConfig).
(** [TensorViewARM::getDescriptorBuffer(dev)] and
    [TensorViewARM::getTensorBuffer()] of [tensor_view.hpp], on the object
    behind a [VkTensorViewARM] handle. *)
Context {Device : Type}.
Context (getDescriptorBuffer : handle → Device → handle).
Context (getTensorBuffer : handle → handle).

(** One iteration of the loop over the views of a tensor write. *)
Definition emitTensorView (dev : Device) (write : VkWriteDescriptorSet.t)
    (tensorInfo : VkWriteDescriptorSetTensorARM.t) (st : Rewritten) (j : nat)
    : outcome Rewritten :=
  tensorViewARM ← deref (VkWriteDescriptorSetTensorARM.pTensorViews tensorInfo !! j);
  let bufferInfos :=
    bufferInfos st ++
      [VkDescriptorBufferInfo.mk (getDescriptorBuffer tensorViewARM dev) 0 VK_WHOLE_SIZE] in
  let writes :=
    writes st ++
      [VkWriteDescriptorSet.mk
         VK_STRUCTURE_TYPE_WRITE_DESCRIPTOR_SET
         []
         (VkWriteDescriptorSet.dstSet write)
         (VkWriteDescriptorSet.dstBinding write)
         (add32 (VkWriteDescriptorSet.dstArrayElement write) (Z.of_nat j))
         1
         VK_DESCRIPTOR_TYPE_UNIFORM_BUFFER
         nullptr
         (list_node (length bufferInfos - 1))
         nullptr] in
  if EXPERIMENTAL_MOLTEN_VK_SUPPORT cfg then
    let bufferInfos :=
      bufferInfos ++
        [VkDescriptorBufferInfo.mk (getTensorBuffer tensorViewARM) 0 VK_WHOLE_SIZE] in
    let writes :=
      writes ++
        [VkWriteDescriptorSet.mk
           VK_STRUCTURE_TYPE_WRITE_DESCRIPTOR_SET
           []
           (VkWriteDescriptorSet.dstSet write)
           (add32 (VkWriteDescriptorSet.dstBinding write)
                  (EXPERIMENTAL_MVK_BUFFER_BINDING_OFFSET cfg))
           (add32 (VkWriteDescriptorSet.dstArrayElement write) (Z.of_nat j))
           1
           VK_DESCRIPTOR_TYPE_STORAGE_BUFFER
           nullptr
           (list_node (length bufferInfos - 1))
           nullptr] in
    Ok {| writes := writes; bufferInfos := bufferInfos; imageInfos := imageInfos st |}
  else
    Ok {| writes := writes; bufferInfos := bufferInfos; imageInfos := imageInfos st |}.

(** One iteration of the loop over the incoming writes. *)
Definition rewriteWrite (dev : Device) (st : Rewritten) (write : VkWriteDescriptorSet.t)
    : outcome Rewritten :=
  if negb (hasTensor write) then
    passthrough ←
      (if is_null (VkWriteDescriptorSet.pImageInfo write) then Ok true
       else
         info ← arrow (VkWriteDescriptorSet.pImageInfo write);
         Ok (bool_decide (VkDescriptorImageInfo.imageLayout info
                          ≠ VK_IMAGE_LAYOUT_TENSOR_ALIASING_ARM)));
    if passthrough : bool then
      Ok {| writes := writes st ++ [write];
            bufferInfos := bufferInfos st;
            imageInfos := imageInfos st |}
    else
      info ← arrow (VkWriteDescriptorSet.pImageInfo write);
      let imageInfos :=
        imageInfos st ++
          [VkDescriptorImageInfo.mk
             (VkDescriptorImageInfo.sampler info)
             (VkDescriptorImageInfo.imageView info)
             VK_IMAGE_LAYOUT_GENERAL] in
      let write_copy :=
        VkWriteDescriptorSet.set_pImageInfo (list_node (length imageInfos - 1)) write in
      Ok {| writes := writes st ++ [write_copy];
            bufferInfos := bufferInfos st;
            imageInfos := imageInfos |}
  else
    match findType (VkWriteDescriptorSet.pNext write) with
    | None => Throw MissingTensorInfo
    | Some tensorInfo =>
        foldM (emitTensorView dev write tensorInfo) st
              (seq 0 (VkWriteDescriptorSetTensorARM.tensorViewCount tensorInfo))
    end.

(** [substituteTensorWriteDescriptorSet(dev, descriptorWriteCount,
    pDescriptorWrites)], the incoming writes as a list. *)
Definition substituteTensorWriteDescriptorSet (dev : Device)
    (pDescriptorWrites : list VkWriteDescriptorSet.t) : outcome Rewritten :=
  foldM (rewriteWrite dev)
        {| writes := []; bufferInfos := []; imageInfos := [] |}
        pDescriptorWrites.
End substituteTensorWriteDescriptorSet.

(** What can be read through a pointer of an emitted write: the elements of
    the array it addresses. *)
Definition readable {A : Type} (nodes : list A) (p : pointer A) : list A :=
  match p with
  | nullptr => []
  | caller_array elems => elems
  | list_node k => match nodes !! k with Some a => [a] | None => [] end
  end.

(** ** [substituteTensorDescriptorPoolSizes] *)

(** [std::find_if] for an entry of type [ty], then either [emplace_back] of a
    new entry or [desc->descriptorCount += tensorCount]. *)
Definition growPoolSize (ty : VkDescriptorType) (tensorCount : Z)
    (descriptorPoolSizes : list VkDescriptorPoolSize.t) : list VkDescriptorPoolSize.t :=
  match list_find (λ poolSize, VkDescriptorPoolSize.type poolSize = ty) descriptorPoolSizes with
  | None => descriptorPoolSizes ++ [VkDescriptorPoolSize.mk ty tensorCount]
  | Some (desc, _) =>
      alter (VkDescriptorPoolSize.add_descriptorCount tensorCount) desc descriptorPoolSizes
  end.

Section substituteTensorDescriptorPoolSizes.
Context (cfg : BuildConfig).

Definition substituteTensorDescriptorPoolSizes (poolSizes : list VkDescriptorPoolSize.t)
    : list VkDescriptorPoolSize.t :=
  let '(descriptorPoolSizes, tensorCount) :=
    fold_left
      (λ '(descriptorPoolSizes, tensorCount) poolSize,
         if hasTensor poolSize
         then (descriptorPoolSizes,
               add32 tensorCount (VkDescriptorPoolSize.descriptorCount poolSize))
         else (descriptorPoolSizes ++ [poolSize], tensorCount))
      poolSizes ([], 0) in
  if 0 <? tensorCount then
    let descriptorPoolSizes :=
      growPoolSize VK_DESCRIPTOR_TYPE_UNIFORM_BUFFER tensorCount descriptorPoolSizes in
    if EXPERIMENTAL_MOLTEN_VK_SUPPORT cfg then
      growPoolSize VK_DESCRIPTOR_TYPE_STORAGE_BUFFER tensorCount descriptorPoolSizes
    else descriptorPoolSizes
  else descriptorPoolSizes.
End substituteTensorDescriptorPoolSizes.

(** ** Notions the properties are stated with *)

(** The constants the specification lists as undecodable, following its
    words: an integer constant of a width outside {8,16,32,64}, a float
    constant of a width outside {16,32,64}, a constant of another kind. *)
Definition spec_unsupported (c : Constant) : Prop :=
  match c with
  | IntConstant w _ _ => w ∉ [8; 16; 32; 64]
  | FloatConstant w _ => w ∉ [16; 32; 64]
  | BoolConstant _ => False
  | CompositeConstant _ _ | NullConstant _ => True
  end.

(** The constants the code refuses, with the error it raises: the width of an
    integer constant is looked at on the unsigned path only. *)
Inductive unsupported : Constant → exception → Prop :=
| unsupported_unsigned w words :
    w ∉ [8; 16; 32; 64] →
    unsupported (IntConstant w false words) (UnsupportedIntegerConstantWidth w)
| unsupported_float w words :
    w ∉ [16; 32; 64] →
    unsupported (FloatConstant w words) (UnsupportedConstantFloatWidth w)
| unsupported_composite ty components :
    unsupported (CompositeConstant ty components) (UnsupportedConstantType ty)
| unsupported_null ty :
    unsupported (NullConstant ty) (UnsupportedConstantType ty).

(** The product of the dimensions of a shape. *)
Definition product (dimensions : list Z) : Z := foldr Z.mul 1 dimensions.


(** A module to evaluate the vector decoder on.  Ids 1, 3 and 6 are the
    shape constants [2,3], [4] and [300], arrays of unsigned 32-bit
    integers; id 2 is a replicated composite of the signed component 7 whose
    tensor type has the shape of id 1; ids 4, 5 and 7 are null constants of
    tensor types with the shapes of ids 3, 1 and 6.  The free store has a
    gibibyte to give. *)
Definition example_module : IRContext := {|
  FindDeclaredConstant := list_to_map [
    (1, CompositeConstant (OtherType 0) [IntConstant 32 false [2]; IntConstant 32 false [3]]);
    (2, CompositeConstant (TensorARM_type (Integer 32 true) 10 1) [IntConstant 32 true [7]]);
    (3, CompositeConstant (OtherType 0) [IntConstant 32 false [4]]);
    (4, NullConstant (TensorARM_type (Integer 32 false) 11 3));
    (5, NullConstant (TensorARM_type (Integer 32 false) 10 1));
    (6, CompositeConstant (OtherType 0) [IntConstant 32 false [300]]);
    (7, NullConstant (TensorARM_type (Integer 8 false) 11 6))
  ];
  GetDef := list_to_map [
    (1, OpConstantComposite); (2, OpConstantCompositeReplicateEXT);
    (3, OpConstantComposite); (4, OpConstantNull); (5, OpConstantNull);
    (6, OpConstantComposite); (7, OpConstantNull)
  ];
  getTensorType id :=
    if id =? 2
    then Ok {| element_type := Integer 32 true; rank_id := 10; shape_id := 1 |}
    else AssertionFailed;
  allocates bytes := bytes <=? 2 ^ 30;
|}.

(** A module whose replicated composites have shapes that the count in
    [size_t] does not follow.  Id 1 is the shape [3000000000], one unsigned
    32-bit integer, and id 2 a replicated composite of the component 7 over a
    tensor of that shape; id 3 is the shape [2^32, 2^32], two unsigned 64-bit
    integers, and id 4 a replicated composite of 7 over a tensor of that
    shape; id 5 is the shape [200] and id 6 a null constant of a tensor of
    8-bit signed elements with that shape. *)
Definition large_module : IRContext := {|
  FindDeclaredConstant := list_to_map [
    (1, CompositeConstant (OtherType 0) [IntConstant 32 false [3000000000]]);
    (2, CompositeConstant (TensorARM_type (Integer 8 true) 11 1) [IntConstant 8 true [7]]);
    (3, CompositeConstant (OtherType 0)
          [IntConstant 64 false [0; 1]; IntConstant 64 false [0; 1]]);
    (4, CompositeConstant (TensorARM_type (Integer 8 true) 10 3) [IntConstant 8 true [7]]);
    (5, CompositeConstant (OtherType 0) [IntConstant 32 false [200]]);
    (6, NullConstant (TensorARM_type (Integer 8 true) 11 5))
  ];
  GetDef := list_to_map [
    (1, OpConstantComposite); (2, OpConstantCompositeReplicateEXT);
    (3, OpConstantComposite); (4, OpConstantCompositeReplicateEXT);
    (5, OpConstantComposite); (6, OpConstantNull)
  ];
  getTensorType id :=
    if id =? 2
    then Ok {| element_type := Integer 8 true; rank_id := 11; shape_id := 1 |}
    else if id =? 4
    then Ok {| element_type := Integer 8 true; rank_id := 10; shape_id := 3 |}
    else AssertionFailed;
  allocates bytes := bytes <=? 2 ^ 30;
|}.

(** The pool-size rewrite in the words of the specification: the tensor
    entries are removed and their counts summed; the sum is added to an
    existing uniform-buffer entry if there is one, and a new uniform-buffer
    entry with that count is appended otherwise. *)
Definition tensor_total (poolSizes : list VkDescriptorPoolSize.t) : Z :=
  fold_left add32
    (VkDescriptorPoolSize.descriptorCount <$> filter (λ p, hasTensor p = true) poolSizes) 0.

Definition without_tensors (poolSizes : list VkDescriptorPoolSize.t)
    : list VkDescriptorPoolSize.t :=
  filter (λ p, hasTensor p = false) poolSizes.

Fixpoint spec_fold_into (ty : VkDescriptorType) (n : Z)
    (l : list VkDescriptorPoolSize.t) : list VkDescriptorPoolSize.t :=
  match l with
  | [] => [VkDescriptorPoolSize.mk ty n]
  | p :: l =>
      if decide (VkDescriptorPoolSize.type p = ty)
      then VkDescriptorPoolSize.mk ty (add32 (VkDescriptorPoolSize.descriptorCount p) n) :: l
      else p :: spec_fold_into ty n l
  end.

Definition spec_substituteTensorDescriptorPoolSizes
    (poolSizes : list VkDescriptorPoolSize.t) : list VkDescriptorPoolSize.t :=
  spec_fold_into VK_DESCRIPTOR_TYPE_UNIFORM_BUFFER (tensor_total poolSizes)
                 (without_tensors poolSizes).

(** The default build, without [EXPERIMENTAL_MOLTEN_VK_SUPPORT], and an
    experimental one. *)
Definition default_build : BuildConfig := {|
  EXPERIMENTAL_MOLTEN_VK_SUPPORT := false;
  EXPERIMENTAL_MVK_BUFFER_BINDING_OFFSET := 0;
|}.

Definition experimental_build (offset : Z) : BuildConfig := {|
  EXPERIMENTAL_MOLTEN_VK_SUPPORT := true;
  EXPERIMENTAL_MVK_BUFFER_BINDING_OFFSET := offset;
|}.

(** The uniform-buffer write emitted for the [j]-th view of a tensor write,
    its buffer-info record being the [node]-th of the returned list, and the
    storage-buffer write the experimental build adds to it. *)
Definition uniformWrite (write : VkWriteDescriptorSet.t) (j node : nat)
    : VkWriteDescriptorSet.t :=
  VkWriteDescriptorSet.mk
    VK_STRUCTURE_TYPE_WRITE_DESCRIPTOR_SET []
    (VkWriteDescriptorSet.dstSet write)
    (VkWriteDescriptorSet.dstBinding write)
    (add32 (VkWriteDescriptorSet.dstArrayElement write) (Z.of_nat j))
    1 VK_DESCRIPTOR_TYPE_UNIFORM_BUFFER
    nullptr (list_node node) nullptr.

Definition storageWrite (cfg : BuildConfig) (write : VkWriteDescriptorSet.t) (j node : nat)
    : VkWriteDescriptorSet.t :=
  VkWriteDescriptorSet.mk
    VK_STRUCTURE_TYPE_WRITE_DESCRIPTOR_SET []
    (VkWriteDescriptorSet.dstSet write)
    (add32 (VkWriteDescriptorSet.dstBinding write) (EXPERIMENTAL_MVK_BUFFER_BINDING_OFFSET cfg))
    (add32 (VkWriteDescriptorSet.dstArrayElement write) (Z.of_nat j))
    1 VK_DESCRIPTOR_TYPE_STORAGE_BUFFER
    nullptr (list_node node) nullptr.

(** A buffer-info record covering the whole of [buffer]. *)
Definition wholeBuffer (buffer : handle) : VkDescriptorBufferInfo.t :=
  VkDescriptorBufferInfo.mk buffer 0 VK_WHOLE_SIZE.

(** The writes emitted for the views [views], the first of them being view
    number [j] and the next free node of the buffer-info list being [node]. *)
Fixpoint emittedWrites (cfg : BuildConfig) (write : VkWriteDescriptorSet.t)
    (node j : nat) (views : list handle) : list VkWriteDescriptorSet.t :=
  match views with
  | [] => []
  | _ :: views =>
      if EXPERIMENTAL_MOLTEN_VK_SUPPORT cfg then
        uniformWrite write j node :: storageWrite cfg write j (S node)
          :: emittedWrites cfg write (S (S node)) (S j) views
      else uniformWrite write j node :: emittedWrites cfg write (S node) (S j) views
  end.

Fixpoint emittedInfos {Device : Type} (cfg : BuildConfig)
    (getDescriptorBuffer : handle → Device → handle) (getTensorBuffer : handle → handle)
    (dev : Device) (views : list handle) : list VkDescriptorBufferInfo.t :=
  match views with
  | [] => []
  | view :: views =>
      if EXPERIMENTAL_MOLTEN_VK_SUPPORT cfg then
        wholeBuffer (getDescriptorBuffer view dev) :: wholeBuffer (getTensorBuffer view)
          :: emittedInfos cfg getDescriptorBuffer getTensorBuffer dev views
      else
        wholeBuffer (getDescriptorBuffer view dev)
          :: emittedInfos cfg getDescriptorBuffer getTensorBuffer dev views
  end.

(** The number of writes, and of buffer-info records, per view. *)
Definition perView (cfg : BuildConfig) : nat :=
  if EXPERIMENTAL_MOLTEN_VK_SUPPORT cfg then 2 else 1.


(** A device and tensor views to evaluate the rewrite on: the descriptor
    buffer of view [v] is the buffer [1000 + v], its data buffer [2000 + v]. *)
Definition example_getDescriptorBuffer (view : handle) (dev : unit) : handle := 1000 + view.
Definition example_getTensorBuffer (view : handle) : handle := 2000 + view.

(** A storage-image write of two descriptors, both in the tensor-aliasing
    layout. *)
Definition aliasing_pair_write : VkWriteDescriptorSet.t :=
  VkWriteDescriptorSet.mk
    VK_STRUCTURE_TYPE_WRITE_DESCRIPTOR_SET [] 1 0 0 2 VK_DESCRIPTOR_TYPE_STORAGE_IMAGE
    (caller_array
       [VkDescriptorImageInfo.mk 0 101 VK_IMAGE_LAYOUT_TENSOR_ALIASING_ARM;
        VkDescriptorImageInfo.mk 0 102 VK_IMAGE_LAYOUT_TENSOR_ALIASING_ARM])
    nullptr nullptr.

(** A tensor write of the views 7 and 8, starting at array element 3 of
    binding 2 of the set 1, and a tensor write without tensor-view structure. *)
Definition two_view_write : VkWriteDescriptorSet.t :=
  VkWriteDescriptorSet.mk
    VK_STRUCTURE_TYPE_WRITE_DESCRIPTOR_SET
    [OtherStruct 5; WriteDescriptorSetTensorARM (VkWriteDescriptorSetTensorARM.mk [7; 8])]
    1 2 3 2 VK_DESCRIPTOR_TYPE_TENSOR_ARM nullptr nullptr nullptr.


Definition sampler_write : VkWriteDescriptorSet.t :=
  VkWriteDescriptorSet.mk
    VK_STRUCTURE_TYPE_WRITE_DESCRIPTOR_SET [] 1 0 0 1 VK_DESCRIPTOR_TYPE_SAMPLER
    (caller_array [VkDescriptorImageInfo.mk 55 0 VK_IMAGE_LAYOUT_UNDEFINED])
    nullptr nullptr.

(** What [substituteTensorBinding] makes of one binding, and the flags array
    it leaves behind: the update-after-bind bit is cleared at the indices of
    the tensor bindings. *)
Definition substitutedBinding (b : VkDescriptorSetLayoutBinding.t)
    : VkDescriptorSetLayoutBinding.t :=
  if hasTensor b
  then VkDescriptorSetLayoutBinding.mk
         (VkDescriptorSetLayoutBinding.binding b)
         VK_DESCRIPTOR_TYPE_UNIFORM_BUFFER
         (VkDescriptorSetLayoutBinding.descriptorCount b)
         (VkDescriptorSetLayoutBinding.stageFlags b)
         (VkDescriptorSetLayoutBinding.pImmutableSamplers b)
  else b.

Fixpoint clearedFlags (bindings : list VkDescriptorSetLayoutBinding.t) (flags : list Z)
    : list Z :=
  match bindings, flags with
  | b :: bindings, f :: flags =>
      (if hasTensor b then clear_update_after_bind f else f) :: clearedFlags bindings flags
  | _, _ => flags
  end.

(** The storage-buffer bindings the experimental build appends: one for each
    tensor binding, in order. *)
Definition appendedBindings (cfg : BuildConfig)
    (bindings : list VkDescriptorSetLayoutBinding.t) : list VkDescriptorSetLayoutBinding.t :=
  if EXPERIMENTAL_MOLTEN_VK_SUPPORT cfg then
    (λ b, VkDescriptorSetLayoutBinding.mk
            (add32 (VkDescriptorSetLayoutBinding.binding b)
                   (EXPERIMENTAL_MVK_BUFFER_BINDING_OFFSET cfg))
            VK_DESCRIPTOR_TYPE_STORAGE_BUFFER
            (VkDescriptorSetLayoutBinding.descriptorCount b)
            (VkDescriptorSetLayoutBinding.stageFlags b)
            nullptr)
      <$> filter (λ b, hasTensor b = true) bindings
  else [].

(** The [bindingInfo] argument of a call with [n] bindings on the memory [h]:
    null, or the address of a structure whose [pBindingFlags] addresses an
    array [flags] of at least [n] flag words, at [pBindingFlags]. *)
Inductive flagsArgument (h : heap) (n : nat) : option loc → option (loc * list Z) → Prop :=
| flags_absent : flagsArgument h n None None
| flags_supplied bindingInfo info pBindingFlags flags :
    h !! bindingInfo = Some (BindingFlagsCreateInfo info) →
    VkDescriptorSetLayoutBindingFlagsCreateInfo.pBindingFlags info = Some pBindingFlags →
    h !! pBindingFlags = Some (BindingFlagsArray flags) →
    (n ≤ length flags)%nat →
    flagsArgument h n (Some bindingInfo) (Some (pBindingFlags, flags)).

(** The caller's memory after the call. *)
Definition heapAfter (h : heap) (bindings : list VkDescriptorSetLayoutBinding.t)
    (supplied : option (loc * list Z)) : heap :=
  match supplied with
  | None => h
  | Some (pBindingFlags, flags) =>
      <[pBindingFlags := BindingFlagsArray (clearedFlags bindings flags)]> h
  end.

(** Four bindings, the third a tensor binding, at address 1; a flags
    structure at address 2 whose flags array, at address 3, has the
    update-after-bind bit set at the indices 1 and 2. *)
Definition example_bindings : list VkDescriptorSetLayoutBinding.t :=
  [VkDescriptorSetLayoutBinding.mk 0 VK_DESCRIPTOR_TYPE_SAMPLER 1 32 nullptr;
   VkDescriptorSetLayoutBinding.mk 1 VK_DESCRIPTOR_TYPE_STORAGE_BUFFER 2 32 nullptr;
   VkDescriptorSetLayoutBinding.mk 2 VK_DESCRIPTOR_TYPE_TENSOR_ARM 1 32 nullptr;
   VkDescriptorSetLayoutBinding.mk 3 VK_DESCRIPTOR_TYPE_UNIFORM_BUFFER 1 32 nullptr].

Definition example_flags : list Z := [0; 3; 5; 4].

Definition example_heap : heap :=
  list_to_map
    [(1%positive, BindingArray example_bindings);
     (2%positive, BindingFlagsCreateInfo
                    (VkDescriptorSetLayoutBindingFlagsCreateInfo.mk 4 (Some 3%positive)));
     (3%positive, BindingFlagsArray example_flags)].

(** ** Further notions *)

(** The scalar constants of a constant, depth first and left to right. *)
Fixpoint leaves (c : Constant) : list Constant :=
  match c with
  | CompositeConstant _ components =>
      (fix go (components : list Constant) : list Constant :=
         match components with
         | [] => []
         | component :: rest => leaves component ++ go rest
         end) components
  | _ => [c]
  end.

(** The decoding of a list of scalar constants, one after the other, which
    stops at the first that fails. *)
Fixpoint decodeAll {T : Type} (A : Arithmetic T) (constants : list Constant)
    : outcome (list T) :=
  match constants with
  | [] => Ok []
  | c :: rest =>
      v ← getConstScalar A c false;
      vs ← decodeAll A rest;
      Ok (v :: vs)
  end.

(** A module in which the shape of the tensor type of the null constant 1
    is the constant 1 itself. *)
Definition cyclic_module : IRContext := {|
  FindDeclaredConstant :=
    list_to_map [(1, NullConstant (TensorARM_type (Integer 32 false) 10 1))];
  GetDef := list_to_map [(1, OpConstantNull)];
  getTensorType id := AssertionFailed;
  allocates bytes := bytes <=? 2 ^ 30;
|}.

(** An incoming write that the rewrite hands on as it is: it is not a tensor
    write, and its image-info pointer is null or addresses a first record
    that is not in the tensor-aliasing layout. *)
Definition ordinaryWrite (write : VkWriteDescriptorSet.t) : Prop :=
  hasTensor write = false
  ∧ match VkWriteDescriptorSet.pImageInfo write with
    | nullptr => True
    | caller_array (info :: _) =>
        VkDescriptorImageInfo.imageLayout info ≠ VK_IMAGE_LAYOUT_TENSOR_ALIASING_ARM
    | _ => False
    end.

(** The node of the returned buffer-info list, and of the returned
    image-info list, that a write addresses, if it addresses one. *)
Definition bufferNode (write : VkWriteDescriptorSet.t) : option nat :=
  match VkWriteDescriptorSet.pBufferInfo write with
  | list_node k => Some k
  | _ => None
  end.

Definition imageNode (write : VkWriteDescriptorSet.t) : option nat :=
  match VkWriteDescriptorSet.pImageInfo write with
  | list_node k => Some k
  | _ => None
  end.

(** An incoming write: its pointers are the caller's. *)
Definition callerPointers (write : VkWriteDescriptorSet.t) : Prop :=
  bufferNode write = None ∧ imageNode write = None.

(** The number of writes, of buffer-info records and of image-info records
    that an incoming write gives rise to. *)
Definition writesFor (cfg : BuildConfig) (write : VkWriteDescriptorSet.t) : nat :=
  if hasTensor write then
    match findType (VkWriteDescriptorSet.pNext write) with
    | Some tensorInfo => perView cfg * VkWriteDescriptorSetTensorARM.tensorViewCount tensorInfo
    | None => 0
    end
  else 1.

Definition bufferInfosFor (cfg : BuildConfig) (write : VkWriteDescriptorSet.t) : nat :=
  if hasTensor write then writesFor cfg write else 0.

Definition imageInfosFor (write : VkWriteDescriptorSet.t) : nat :=
  if hasTensor write then 0
  else match VkWriteDescriptorSet.pImageInfo write with
       | caller_array (info :: _) =>
           if bool_decide (VkDescriptorImageInfo.imageLayout info
                           = VK_IMAGE_LAYOUT_TENSOR_ALIASING_ARM)
           then 1 else 0
       | _ => 0
       end.

(** The sum of the descriptor counts of the pool-size entries of one type. *)
Definition countOf (ty : VkDescriptorType) (poolSizes : list VkDescriptorPoolSize.t) : Z :=
  foldr Z.add 0
    (VkDescriptorPoolSize.descriptorCount
       <$> filter (λ p, VkDescriptorPoolSize.type p = ty) poolSizes).

(** The descriptor types whose pool-size entries the rewrite touches. *)
Definition rewrittenTypes (cfg : BuildConfig) : list VkDescriptorType :=
  VK_DESCRIPTOR_TYPE_TENSOR_ARM :: VK_DESCRIPTOR_TYPE_UNIFORM_BUFFER
    :: if EXPERIMENTAL_MOLTEN_VK_SUPPORT cfg then [VK_DESCRIPTOR_TYPE_STORAGE_BUFFER] else [].
(** * Properties *)

(** ** The scalar decoder *)

Example getConstScalar_u8_200_unsigned :
  getConstScalar int64_t (IntConstant 8 false [200]) true = Ok 200.
Proof. reflexivity. Qed.

Example getConstScalar_s8_neg56 :
  getConstScalar int64_t (IntConstant 8 true [4294967240]) false = Ok (-56).
Proof. reflexivity. Qed.

Example getConstScalar_u16_into_uint32 :
  getConstScalar uint32_t (IntConstant 16 false [65535]) false = Ok 4294967295.
Proof. reflexivity. Qed.

Example getConstScalar_float_5 :
  getConstScalar int64_t (FloatConstant 32 [1084227584]) false = Ok 5.
Proof. reflexivity. Qed.

Example getConstScalar_half_minus_2_5 :
  getConstScalar int64_t (FloatConstant 16 [49408]) false = Ok (-2).
Proof. reflexivity. Qed.

Example getConstScalar_float128 :
  getConstScalar int64_t (FloatConstant 128 [0; 0; 0; 0]) false
  = Throw (UnsupportedConstantFloatWidth 128).
Proof. reflexivity. Qed.

Example getConstScalar_u24 :
  getConstScalar int64_t (IntConstant 24 false [5]) false
  = Throw (UnsupportedIntegerConstantWidth 24).
Proof. reflexivity. Qed.

Lemma eqb_of_not_elem (w : Z) (x : Z) (l : list Z) :
  w ∉ l → x ∈ l → (w =? x) = false.
Proof. intros Hw Hx. apply Z.eqb_neq. intros ->. done. Qed.

Ltac width_not w H x :=
  rewrite (eqb_of_not_elem w x _ H) by set_solver.

(** A signed integer constant is decoded whatever its declared width. *)
Lemma getConstScalar_signed {T} (A : Arithmetic T) w words isUnsigned :
  getConstScalar A (IntConstant w true words) isUnsigned
  = from_integer A <$> GetSignExtendedValue (IntConstant w true words).
Proof. reflexivity. Qed.

(** C1, the claim as stated, fails: a signed integer constant of declared
    width 24 is among the constants the claim calls undecodable, and the
    decoder returns its value instead of raising an error. *)
Lemma getConstScalar_signed_width_24 :
  ¬ (spec_unsupported (IntConstant 24 true [5]) →
     ∃ e, getConstScalar int64_t (IntConstant 24 true [5]) false = Throw e).
Proof.
  intros H. destruct H as [e He].
  - cbn. rewrite !elem_of_cons, elem_of_nil. lia.
  - discriminate He.
Qed.

(** C1, amended: an unsigned integer constant of a width outside
    {8,16,32,64}, a float constant of a width outside {16,32,64} and a
    constant that is neither integer, float nor boolean make the decoder fail
    with the unsupported-width or unsupported-type error, for every target
    type and either value of the flag. *)
Theorem getConstScalar_unsupported {T} (A : Arithmetic T) c isUnsigned e :
  unsupported c e → getConstScalar A c isUnsigned = Throw e.
Proof.
  intros H. inversion H as [w words Hw|w words Hw| |]; subst; cbn.
  - width_not w Hw 8. width_not w Hw 16. width_not w Hw 32. width_not w Hw 64.
    reflexivity.
  - width_not w Hw 16. width_not w Hw 32. width_not w Hw 64. reflexivity.
  - reflexivity.
  - reflexivity.
Qed.

Lemma getConstScalar_unsupported_witness :
  unsupported (IntConstant 24 false [5]) (UnsupportedIntegerConstantWidth 24)
  ∧ getConstScalar int64_t (IntConstant 24 false [5]) true
    = Throw (UnsupportedIntegerConstantWidth 24).
Proof.
  assert (H : unsupported (IntConstant 24 false [5]) (UnsupportedIntegerConstantWidth 24)).
  { constructor. rewrite !elem_of_cons, elem_of_nil. lia. }
  split; [exact H | exact (getConstScalar_unsupported int64_t _ true _ H)].
Defined.

(** C2: a signed integer constant decodes to its sign-extended value
    converted to the target type; an unsigned one of width w in {8,16,32,64}
    decodes, without the flag, to its zero-extended value read through the
    signed w-bit type and, with the flag, to the zero-extended value itself;
    an unsigned 8-bit 200 decodes to -56 without the flag. *)
Theorem getConstScalar_integer {T} (A : Arithmetic T) w words :
  w ∈ [8; 16; 32; 64] →
  (∀ w' isUnsigned,
     getConstScalar A (IntConstant w' true words) isUnsigned
     = from_integer A <$> GetSignExtendedValue (IntConstant w' true words))
  ∧ getConstScalar A (IntConstant w false words) false
    = (λ v, from_integer A (to_signed w v)) <$> GetZeroExtendedValue (IntConstant w false words)
  ∧ getConstScalar A (IntConstant w false words) true
    = from_integer A <$> GetZeroExtendedValue (IntConstant w false words)
  ∧ getConstScalar int64_t (IntConstant 8 false [200]) false = Ok (-56).
Proof.
  intros Hw. split; [reflexivity|].
  rewrite !elem_of_cons, elem_of_nil in Hw.
  destruct Hw as [->|[->|[->|[->|[]]]]]; repeat split;
    cbn; destruct (word words 0); try destruct (word words 1); reflexivity.
Qed.

Lemma getConstScalar_integer_witness :
  (16 : Z) ∈ [8; 16; 32; 64]
  ∧ getConstScalar uint32_t (IntConstant 16 false [65535]) false
    = (λ v, from_integer uint32_t (to_signed 16 v))
        <$> GetZeroExtendedValue (IntConstant 16 false [65535]).
Proof.
  assert (H : (16 : Z) ∈ [8; 16; 32; 64]).
  { rewrite !elem_of_cons. lia. }
  split; [exact H|].
  exact (proj1 (proj2 (getConstScalar_integer uint32_t 16 [65535] H))).
Defined.

(** X1: decoding an unsigned constant of 8, 16 or 32 bits at [int64_t] and
    encoding the result again at that width gives the constant back, with or
    without the flag. *)
Lemma getConstScalar_reencode (w x : Z) (isUnsigned : bool) :
  w ∈ [8; 16; 32] →
  0 ≤ x < 2 ^ w →
  ∃ v, getConstScalar int64_t (IntConstant w false [x]) isUnsigned = Ok v
       ∧ wrap w v = x.
Proof.
  intros Hw Hx. rewrite !elem_of_cons, elem_of_nil in Hw.
  destruct Hw as [->|[->|[->|[]]]]; destruct isUnsigned; cbn;
    eexists; (split; [reflexivity|]);
    unfold to_signed, wrap; cbn -[Z.modulo Z.ltb Z.sub] in *;
    repeat match goal with
           | |- context [?a <? ?b] => destruct (Z.ltb_spec a b)
           end;
    Z.div_mod_to_equations; lia.
Qed.

(** ** The vector decoder *)

Lemma wrap_mul_wrap (a d : Z) : wrap 64 (a * wrap 64 d) = wrap 64 (a * d).
Proof. unfold wrap. apply Zmult_mod_idemp_r. Qed.

Lemma wrap_wrap_mul (a d : Z) : wrap 64 (wrap 64 a * d) = wrap 64 (a * d).
Proof. unfold wrap. apply Zmult_mod_idemp_l. Qed.

Lemma compositeCount_from (acc : Z) (dimensions : list Z) :
  fold_left (λ acc dim, wrap 64 (acc * wrap 64 dim)) dimensions (wrap 64 acc)
  = wrap 64 (acc * product dimensions).
Proof.
  revert acc. induction dimensions as [|d ds IH]; intros acc; cbn.
  - by rewrite Z.mul_1_r.
  - rewrite wrap_mul_wrap, wrap_wrap_mul, IH. unfold product. f_equal. lia.
Qed.

(** The count computed in [size_t] is the product of the dimensions modulo
    2^64. *)
Lemma compositeCount_product (dimensions : list Z) :
  compositeCount dimensions = wrap 64 (product dimensions).
Proof.
  unfold compositeCount.
  change 1 with (wrap 64 1) at 1. rewrite compositeCount_from. f_equal.
  apply Z.mul_1_l.
Qed.

Lemma resize_singleton (allocates : Z → bool) {T : Type} (A : Arithmetic T) (n : Z) (x : T) :
  resize allocates A n x [x]
  = if n <=? 1 then Ok (replicate (Z.to_nat n) x)
    else if max_size A <? n then Throw length_error
    else if allocates (n * sizeof A) then Ok (replicate (Z.to_nat n) x)
    else Throw bad_alloc.
Proof.
  unfold resize. cbn [length].
  change (Z.of_nat 1) with 1.
  destruct (Z.leb_spec n 1) as [Hn|Hn].
  - f_equal. destruct (Z.to_nat n) as [|k] eqn:Hk; [done|].
    assert (k = 0%nat) as -> by lia. done.
  - destruct (max_size A <? n); [done|].
    destruct (allocates _); [|done].
    f_equal. destruct (Z.to_nat n) as [|k] eqn:Hk; [lia|].
    cbn. by rewrite Nat.sub_0_r.
Qed.

Lemma resize_nil (allocates : Z → bool) {T : Type} (A : Arithmetic T) (n : Z) (x : T) :
  resize allocates A n x []
  = if n <=? 0 then Ok []
    else if max_size A <? n then Throw length_error
    else if allocates (n * sizeof A) then Ok (replicate (Z.to_nat n) x)
    else Throw bad_alloc.
Proof.
  unfold resize. cbn [length]. change (Z.of_nat 0) with 0.
  destruct (n <=? 0); [by rewrite take_nil|].
  destruct (max_size A <? n); [done|].
  destruct (allocates _); [|done].
  by rewrite app_nil_l, Nat.sub_0_r.
Qed.

Lemma run_bind_mono {A B : Type} (f f' : A → option (outcome B)) x x' r :
  (∀ o, x = Some o → x' = Some o) →
  (∀ a r, f a = Some r → f' a = Some r) →
  run_bind f x = Some r → run_bind f' x' = Some r.
Proof.
  intros Hx Hf. destruct x as [o|]; [|discriminate].
  rewrite (Hx o eq_refl). destruct o; cbn; auto.
Qed.

(** The body is monotone in the function it calls back. *)
Lemma getConstVector_body_mono ctx
    (self self' : ∀ T : Type, Arithmetic T → Z → option (outcome (list T))) :
  (∀ T A id r, self T A id = Some r → self' T A id = Some r) →
  ∀ T A id r,
    getConstVector_body ctx self T A id = Some r →
    getConstVector_body ctx self' T A id = Some r.
Proof.
  intros Hself T A id r. unfold getConstVector_body.
  apply run_bind_mono; [auto|]. intros constant r1.
  destruct constant as [| | |ty comps|ty]; auto.
  - apply run_bind_mono; [auto|]. intros instruction r2.
    apply run_bind_mono; [auto|]. intros kernel r3.
    destruct instruction; auto;
      (apply run_bind_mono; [auto|]; intros _ r4;
       apply run_bind_mono; [auto|]; intros tensorType r5;
       apply run_bind_mono; [apply Hself|]; auto).
  - destruct (AsTensorARM ty) as [tensor|]; auto.
    apply run_bind_mono; [apply Hself|]; auto.
Qed.

(** More budget does not change the result of a run that ended. *)
Lemma getConstVector_fuel_S ctx fuel :
  ∀ T (A : Arithmetic T) id r,
    getConstVector ctx fuel T A id = Some r →
    getConstVector ctx (S fuel) T A id = Some r.
Proof.
  induction fuel as [|fuel IH]; intros T A id r; [discriminate|].
  change (getConstVector_body ctx (getConstVector ctx fuel) T A id = Some r →
          getConstVector_body ctx (getConstVector ctx (S fuel)) T A id = Some r).
  apply getConstVector_body_mono, IH.
Qed.

Lemma getConstVector_fuel_mono ctx fuel fuel' T (A : Arithmetic T) id r :
  (fuel ≤ fuel')%nat →
  getConstVector ctx fuel T A id = Some r →
  getConstVector ctx fuel' T A id = Some r.
Proof.
  induction 1 as [|m _ IH]; [done|]. intros H. by apply getConstVector_fuel_S, IH.
Qed.

Example getConstVector_nested :
  getFlattenedCompositeConstant int64_t
    (CompositeConstant (OtherType 0)
       [CompositeConstant (OtherType 0) [IntConstant 32 true [1]; IntConstant 32 true [2]];
        IntConstant 32 true [3];
        CompositeConstant (OtherType 0) [IntConstant 32 true [4]]]) []
  = Ok [1; 2; 3; 4].
Proof. reflexivity. Qed.

Example getConstVector_shape_2_3 :
  getConstVector example_module 1 Z int64_t 1 = Some (Ok [2; 3]).
Proof. reflexivity. Qed.

(** C6, the claim as stated, fails: the count of copies is accumulated in
    [size_t] from dimensions decoded as signed 64-bit values, and the vector
    is resized to that count.  The shape [2^32, 2^32] has the product 2^64
    and the splat of 7 over it decodes to the empty vector; the shape
    [3000000000], one unsigned 32-bit dimension, is decoded to -1294967296
    and the splat of 7 over it raises [std::length_error]. *)
Lemma getConstVector_splat_wraps :
  getConstVector large_module 1 Z int64_t 3 = Some (Ok [2 ^ 32; 2 ^ 32])
  ∧ product [2 ^ 32; 2 ^ 32] = 2 ^ 64
  ∧ getConstVector large_module 2 Z int8_t 4 = Some (Ok [])
  ∧ Z.of_nat (length (@nil Z)) ≠ product [2 ^ 32; 2 ^ 32]
  ∧ getConstVector large_module 1 Z int64_t 1 = Some (Ok [-1294967296])
  ∧ getConstVector large_module 2 Z int8_t 2 = Some (Throw length_error).
Proof. repeat split; try (vm_compute; reflexivity). vm_compute. discriminate. Qed.

(** C6, amended: a composite constant defined by a replicate opcode, whose
    flattening gives the single value v, is decoded with the count of
    copies taken in [size_t]: the product of the dimensions of its tensor
    type modulo 2^64, the dimensions being the shape constant of that type
    decoded as signed 64-bit values.  A count of 0 gives the empty vector
    and a count of 1 the vector [v]; a larger count gives v repeated count
    times when it is within [max_size()] of the vector and the free store
    has the storage, [std::length_error] when it is above [max_size()] and
    [std::bad_alloc] when the storage is not there.  The count is the
    product itself when that lies between 0 and 2^64 - 1. *)
Theorem getConstVector_splat ctx fuel T (A : Arithmetic T) id ty components
    instruction v tensorType dimensions :
  FindDeclaredConstant ctx !! id = Some (CompositeConstant ty components) →
  GetDef ctx !! id = Some instruction →
  instruction ∈ [OpConstantCompositeReplicateEXT; OpSpecConstantCompositeReplicateEXT] →
  getFlattenedCompositeConstant A (CompositeConstant ty components) [] = Ok [v] →
  getTensorType ctx id = Ok tensorType →
  getConstVector ctx fuel Z int64_t (shape_id tensorType) = Some (Ok dimensions) →
  let count := product dimensions `mod` 2 ^ 64 in
  getConstVector ctx (S fuel) T A id
  = Some (if count <=? 1 then Ok (replicate (Z.to_nat count) v)
          else if max_size A <? count then Throw length_error
          else if allocates ctx (count * sizeof A)
               then Ok (replicate (Z.to_nat count) v)
               else Throw bad_alloc)
  ∧ (0 ≤ product dimensions < 2 ^ 64 → count = product dimensions).
Proof.
  intros Hc Hdef Hop Hflat Htt Hdims count. split.
  - cbn [getConstVector]. unfold getConstVector_body.
    rewrite Hc; cbn [deref run_bind]. rewrite Hdef; cbn [deref run_bind].
    rewrite Hflat; cbn [run_bind].
    assert (Hsplat : match instruction with
                     | OpConstantCompositeReplicateEXT
                     | OpSpecConstantCompositeReplicateEXT => true
                     | _ => false
                     end = true).
    { rewrite !elem_of_cons, elem_of_nil in Hop. by destruct Hop as [->|[->|[]]]. }
    rewrite Hsplat. cbn [length bool_decide assert run_bind].
    rewrite Htt; cbn [run_bind]. rewrite Hdims; cbn [run_bind head deref].
    by rewrite resize_singleton, compositeCount_product.
  - intros Hprod. subst count. by apply Z.mod_small.
Qed.

Lemma getConstVector_splat_witness :
  getConstVector example_module 2 Z int64_t 2 = Some (Ok [7; 7; 7; 7; 7; 7]).
Proof.
  refine (proj1 (getConstVector_splat example_module 1 Z int64_t 2
            (TensorARM_type (Integer 32 true) 10 1) [IntConstant 32 true [7]]
            OpConstantCompositeReplicateEXT 7
            {| element_type := Integer 32 true; rank_id := 10; shape_id := 1 |}
            [2; 3] eq_refl eq_refl _ eq_refl eq_refl eq_refl)).
  apply list_elem_of_here.
Defined.

(** X6: a null constant of a tensor type whose shape constant decodes, at
    the element type [T] of the call, to a single entry is decoded by
    resizing the empty vector to that entry converted to [size_t]: as many
    value-initialised elements when the length is within [max_size()] and
    the free store has the storage, [std::length_error] when it is above
    [max_size()] (a dimension that the signed type [T] reads as negative),
    [std::bad_alloc] when the storage is not there. *)
Lemma getConstVector_null ctx fuel T (A : Arithmetic T) id ty tensor shape0 n :
  FindDeclaredConstant ctx !! id = Some (NullConstant ty) →
  AsTensorARM ty = Some tensor →
  getConstVector ctx fuel T A (shape_id tensor) = Some (Ok [shape0]) →
  to_size_t A shape0 = Ok n →
  getConstVector ctx (S fuel) T A id
  = Some (if n <=? 0 then Ok []
          else if max_size A <? n then Throw length_error
          else if allocates ctx (n * sizeof A)
               then Ok (replicate (Z.to_nat n) (value_init A))
               else Throw bad_alloc).
Proof.
  intros Hc Hty Hshape Hn.
  cbn [getConstVector]. unfold getConstVector_body.
  rewrite Hc; cbn [deref run_bind]. rewrite Hty, Hshape; cbn [run_bind].
  cbn [length bool_decide assert run_bind lookup list_lookup deref].
  rewrite Hn; cbn [run_bind]. by rewrite resize_nil.
Qed.

(** X21: a null constant of a tensor type whose decoded shape does not have
    exactly one entry stops at the assertion. *)
Lemma getConstVector_null_rank ctx fuel T (A : Arithmetic T) id ty tensor shape :
  FindDeclaredConstant ctx !! id = Some (NullConstant ty) →
  AsTensorARM ty = Some tensor →
  getConstVector ctx fuel T A (shape_id tensor) = Some (Ok shape) →
  length shape ≠ 1%nat →
  getConstVector ctx (S fuel) T A id = Some AssertionFailed.
Proof.
  intros Hc Hty Hshape Hlen.
  cbn [getConstVector]. unfold getConstVector_body.
  rewrite Hc; cbn [deref run_bind]. rewrite Hty, Hshape; cbn [run_bind].
  by rewrite bool_decide_eq_false_2.
Qed.

Example getConstVector_null_shape_4 :
  getConstVector example_module 2 Z uint32_t 4 = Some (Ok [0; 0; 0; 0]).
Proof. reflexivity. Qed.

Example getConstVector_null_rank_2 :
  getConstVector example_module 2 Z uint32_t 5 = Some AssertionFailed.
Proof. reflexivity. Qed.

(** C7, at the input where the code departs from it: the shape constant of
    id 6 is [300], and the null constant of the rank-1 tensor of 8-bit
    unsigned elements with that shape, decoded at its element type, comes out
    as 44 zeros, because the shape is decoded at the element type too. *)
Theorem getConstVector_null_uint8_shape_300 :
  getConstVector example_module 2 Z int64_t 6 = Some (Ok [300])
  ∧ getConstVector example_module 2 Z uint8_t 6 = Some (Ok [44])
  ∧ getConstVector example_module 2 Z uint8_t 7 = Some (Ok (replicate 44 0)).
Proof. repeat split; reflexivity. Qed.

(** ** Descriptor-pool sizes *)

Example poolSizes_tensor_5_uniform_10 :
  substituteTensorDescriptorPoolSizes default_build
    [VkDescriptorPoolSize.mk VK_DESCRIPTOR_TYPE_TENSOR_ARM 5;
     VkDescriptorPoolSize.mk VK_DESCRIPTOR_TYPE_UNIFORM_BUFFER 10]
  = [VkDescriptorPoolSize.mk VK_DESCRIPTOR_TYPE_UNIFORM_BUFFER 15].
Proof. reflexivity. Qed.

Example poolSizes_tensor_3 :
  substituteTensorDescriptorPoolSizes default_build
    [VkDescriptorPoolSize.mk VK_DESCRIPTOR_TYPE_TENSOR_ARM 3]
  = [VkDescriptorPoolSize.mk VK_DESCRIPTOR_TYPE_UNIFORM_BUFFER 3].
Proof. reflexivity. Qed.

Example poolSizes_tensor_3_experimental :
  substituteTensorDescriptorPoolSizes (experimental_build 16)
    [VkDescriptorPoolSize.mk VK_DESCRIPTOR_TYPE_TENSOR_ARM 3]
  = [VkDescriptorPoolSize.mk VK_DESCRIPTOR_TYPE_UNIFORM_BUFFER 3;
     VkDescriptorPoolSize.mk VK_DESCRIPTOR_TYPE_STORAGE_BUFFER 3].
Proof. reflexivity. Qed.

(** The first loop: the entries that are not tensors are kept in order and
    the counts of the tensor entries are accumulated. *)
Lemma poolSizes_loop (poolSizes acc : list VkDescriptorPoolSize.t) (count : Z) :
  fold_left
    (λ '(descriptorPoolSizes, tensorCount) poolSize,
       if hasTensor poolSize
       then (descriptorPoolSizes,
             add32 tensorCount (VkDescriptorPoolSize.descriptorCount poolSize))
       else (descriptorPoolSizes ++ [poolSize], tensorCount))
    poolSizes (acc, count)
  = (acc ++ without_tensors poolSizes,
     fold_left add32
       (VkDescriptorPoolSize.descriptorCount <$> filter (λ p, hasTensor p = true) poolSizes)
       count).
Proof.
  revert acc count. unfold without_tensors.
  induction poolSizes as [|p l IH]; intros acc count; cbn [fold_left].
  - by rewrite app_nil_r.
  - rewrite !filter_cons.
    destruct (hasTensor p) eqn:Hp; rewrite IH; repeat case_decide;
      try congruence; cbn; by rewrite <- ?app_assoc.
Qed.

(** [growPoolSize] is the fold-or-append of the specification. *)
Lemma growPoolSize_spec ty n l : growPoolSize ty n l = spec_fold_into ty n l.
Proof.
  unfold growPoolSize. induction l as [|p l IH]; [done|].
  cbn [list_find spec_fold_into]. destruct (decide (VkDescriptorPoolSize.type p = ty)) as [Hp|Hp].
  - cbn. unfold VkDescriptorPoolSize.add_descriptorCount. by rewrite Hp.
  - revert IH. destruct (list_find _ l) as [[i q]|]; cbn; intros <-; done.
Qed.

Lemma fold_left_add32_nonneg (counts : list Z) (c : Z) :
  0 ≤ c → 0 ≤ fold_left add32 counts c.
Proof.
  revert c. induction counts as [|x l IH]; intros c Hc; cbn; [done|].
  apply IH. unfold add32, wrap. apply Z.mod_pos_bound. done.
Qed.

Lemma tensor_total_nonneg poolSizes : 0 ≤ tensor_total poolSizes.
Proof. by apply fold_left_add32_nonneg. Qed.

Lemma spec_fold_into_no_tensor ty n l :
  ty ≠ VK_DESCRIPTOR_TYPE_TENSOR_ARM →
  Forall (λ p, hasTensor p = false) l →
  Forall (λ p, hasTensor p = false) (spec_fold_into ty n l).
Proof.
  intros Hty. assert (Hnew : ∀ c, hasTensor (VkDescriptorPoolSize.mk ty c) = false).
  { intros c. by apply bool_decide_eq_false_2. }
  induction 1 as [|p l Hp Hl IH]; cbn.
  - by constructor.
  - case_decide; constructor; auto.
Qed.

Lemma without_tensors_no_tensor poolSizes :
  Forall (λ p, hasTensor p = false) (without_tensors poolSizes).
Proof. apply Forall_forall. intros p Hp. by apply list_elem_of_filter in Hp as [? _]. Qed.

(** C5, the claim as stated, fails: a list without a tensor entry and
    without a uniform-buffer entry comes back as it is, where the claim
    appends a uniform-buffer entry holding the accumulated count 0. *)
Lemma poolSizes_without_tensor :
  substituteTensorDescriptorPoolSizes default_build
    [VkDescriptorPoolSize.mk VK_DESCRIPTOR_TYPE_SAMPLER 4]
  = [VkDescriptorPoolSize.mk VK_DESCRIPTOR_TYPE_SAMPLER 4]
  ∧ spec_substituteTensorDescriptorPoolSizes
      [VkDescriptorPoolSize.mk VK_DESCRIPTOR_TYPE_SAMPLER 4]
    = [VkDescriptorPoolSize.mk VK_DESCRIPTOR_TYPE_SAMPLER 4;
       VkDescriptorPoolSize.mk VK_DESCRIPTOR_TYPE_UNIFORM_BUFFER 0]
  ∧ substituteTensorDescriptorPoolSizes default_build
      [VkDescriptorPoolSize.mk VK_DESCRIPTOR_TYPE_SAMPLER 4]
    ≠ spec_substituteTensorDescriptorPoolSizes
        [VkDescriptorPoolSize.mk VK_DESCRIPTOR_TYPE_SAMPLER 4].
Proof. repeat split; [reflexivity..|discriminate]. Qed.

(** C5, amended: the tensor entries are removed, their counts summed (in
    [uint32_t]) and the other entries kept as they are, in order; when the
    sum is not zero it is added to the first uniform-buffer entry if there is
    one and a new uniform-buffer entry with that count is appended otherwise
    (the experimental build then does the same for the storage-buffer entry);
    when the sum is zero nothing is added or appended.  No tensor entry
    remains, [{TENSOR: 5, UNIFORM_BUFFER: 10}] gives [{UNIFORM_BUFFER: 15}]
    and [{TENSOR: 3}] gives [{UNIFORM_BUFFER: 3}]. *)
Theorem substituteTensorDescriptorPoolSizes_spec cfg poolSizes :
  substituteTensorDescriptorPoolSizes cfg poolSizes
  = (if decide (tensor_total poolSizes = 0) then without_tensors poolSizes
     else if EXPERIMENTAL_MOLTEN_VK_SUPPORT cfg
          then spec_fold_into VK_DESCRIPTOR_TYPE_STORAGE_BUFFER (tensor_total poolSizes)
                 (spec_substituteTensorDescriptorPoolSizes poolSizes)
          else spec_substituteTensorDescriptorPoolSizes poolSizes)
  ∧ Forall (λ p, hasTensor p = false) (substituteTensorDescriptorPoolSizes cfg poolSizes)
  ∧ substituteTensorDescriptorPoolSizes default_build
      [VkDescriptorPoolSize.mk VK_DESCRIPTOR_TYPE_TENSOR_ARM 5;
       VkDescriptorPoolSize.mk VK_DESCRIPTOR_TYPE_UNIFORM_BUFFER 10]
    = [VkDescriptorPoolSize.mk VK_DESCRIPTOR_TYPE_UNIFORM_BUFFER 15]
  ∧ substituteTensorDescriptorPoolSizes default_build
      [VkDescriptorPoolSize.mk VK_DESCRIPTOR_TYPE_TENSOR_ARM 3]
    = [VkDescriptorPoolSize.mk VK_DESCRIPTOR_TYPE_UNIFORM_BUFFER 3].
Proof.
  assert (Heq : substituteTensorDescriptorPoolSizes cfg poolSizes
    = (if decide (tensor_total poolSizes = 0) then without_tensors poolSizes
       else if EXPERIMENTAL_MOLTEN_VK_SUPPORT cfg
          then spec_fold_into VK_DESCRIPTOR_TYPE_STORAGE_BUFFER (tensor_total poolSizes)
                 (spec_substituteTensorDescriptorPoolSizes poolSizes)
          else spec_substituteTensorDescriptorPoolSizes poolSizes)).
  { unfold substituteTensorDescriptorPoolSizes, spec_substituteTensorDescriptorPoolSizes.
    rewrite poolSizes_loop, app_nil_l. fold (tensor_total poolSizes).
    pose proof (tensor_total_nonneg poolSizes) as Hpos.
    case_decide as Hz.
    - rewrite Hz. done.
    - assert (Hlt : (0 <? tensor_total poolSizes) = true) by (apply Z.ltb_lt; lia).
      rewrite Hlt, !growPoolSize_spec. done. }
  split; [exact Heq|]. split; [|split; reflexivity].
  rewrite Heq. unfold spec_substituteTensorDescriptorPoolSizes.
  pose proof (without_tensors_no_tensor poolSizes) as Hw.
  case_decide; [done|].
  destruct (EXPERIMENTAL_MOLTEN_VK_SUPPORT cfg);
    repeat (apply spec_fold_into_no_tensor; [done|]); done.
Qed.

(** ** Descriptor-set writes *)

(** [uint32_t] addition is the sum when the sum fits. *)
Lemma add32_small (a b : Z) : 0 ≤ a → 0 ≤ b → a + b < 2 ^ 32 → add32 a b = a + b.
Proof. intros Ha Hb Hab. unfold add32, wrap. apply Z.mod_small. lia. Qed.

Lemma foldM_app {S A : Type} (body : S → A → outcome S) (s : S) (l1 l2 : list A) :
  foldM body s (l1 ++ l2) = foldM body s l1 ≫= λ s', foldM body s' l2.
Proof.
  revert s. induction l1 as [|a l1 IH]; intros s; cbn; [done|].
  destruct (body s a); cbn; auto.
Qed.

Section writes.
Context (cfg : BuildConfig) {Device : Type}.
Context (getDescriptorBuffer : handle → Device → handle).
Context (getTensorBuffer : handle → handle).
Context (dev : Device).

Lemma emitTensorView_step write tensorInfo st j view :
  VkWriteDescriptorSetTensorARM.pTensorViews tensorInfo !! j = Some view →
  emitTensorView cfg getDescriptorBuffer getTensorBuffer dev write tensorInfo st j
  = Ok {| writes := writes st ++ emittedWrites cfg write (length (bufferInfos st)) j [view];
          bufferInfos :=
            bufferInfos st
              ++ emittedInfos cfg getDescriptorBuffer getTensorBuffer dev [view];
          imageInfos := imageInfos st |}.
Proof.
  intros Hj. unfold emitTensorView. rewrite Hj.
  cbn [deref mbind outcome_mbind outcome_bind emittedWrites emittedInfos].
  destruct (EXPERIMENTAL_MOLTEN_VK_SUPPORT cfg);
    rewrite !length_app; cbn [length]; rewrite <- ?app_assoc; cbn [app];
    unfold uniformWrite, storageWrite, wholeBuffer; repeat f_equal; lia.
Qed.

Lemma emittedWrites_cons write node j view views :
  emittedWrites cfg write node j (view :: views)
  = emittedWrites cfg write node j [view]
      ++ emittedWrites cfg write (node + perView cfg) (S j) views.
Proof.
  unfold perView. cbn [emittedWrites].
  destruct (EXPERIMENTAL_MOLTEN_VK_SUPPORT cfg); cbn [app]; repeat f_equal; lia.
Qed.

Lemma emittedInfos_cons view views :
  emittedInfos cfg getDescriptorBuffer getTensorBuffer dev (view :: views)
  = emittedInfos cfg getDescriptorBuffer getTensorBuffer dev [view]
      ++ emittedInfos cfg getDescriptorBuffer getTensorBuffer dev views.
Proof. cbn [emittedInfos]. by destruct (EXPERIMENTAL_MOLTEN_VK_SUPPORT cfg). Qed.

Lemma emittedInfos_length views :
  length (emittedInfos cfg getDescriptorBuffer getTensorBuffer dev views)
  = (perView cfg * length views)%nat.
Proof.
  unfold perView. induction views as [|view views IH]; cbn [emittedInfos length]; [lia|].
  destruct (EXPERIMENTAL_MOLTEN_VK_SUPPORT cfg); cbn [length]; lia.
Qed.

Lemma emittedWrites_length write node j views :
  length (emittedWrites cfg write node j views) = (perView cfg * length views)%nat.
Proof.
  unfold perView. revert node j.
  induction views as [|view views IH]; intros node j; cbn [emittedWrites length]; [lia|].
  destruct (EXPERIMENTAL_MOLTEN_VK_SUPPORT cfg); cbn [length]; rewrite IH; lia.
Qed.

(** The loop over the views of a tensor write never fails; it appends
    the emitted writes and records. *)
Lemma emitTensorView_loop write tensorInfo views :
  ∀ j st,
    drop j (VkWriteDescriptorSetTensorARM.pTensorViews tensorInfo) = views →
    foldM (emitTensorView cfg getDescriptorBuffer getTensorBuffer dev write tensorInfo)
          st (seq j (length views))
    = Ok {| writes := writes st ++ emittedWrites cfg write (length (bufferInfos st)) j views;
            bufferInfos :=
              bufferInfos st ++ emittedInfos cfg getDescriptorBuffer getTensorBuffer dev views;
            imageInfos := imageInfos st |}.
Proof.
  induction views as [|view views IH]; intros j st Hdrop; cbn [length seq foldM].
  - cbn. rewrite !app_nil_r. by destruct st.
  - assert (Hj : VkWriteDescriptorSetTensorARM.pTensorViews tensorInfo !! j = Some view).
    { rewrite <- (Nat.add_0_r j), <- lookup_drop, Hdrop. done. }
    assert (Hdrop' : drop (S j) (VkWriteDescriptorSetTensorARM.pTensorViews tensorInfo) = views).
    { rewrite (drop_S _ _ _ Hj) in Hdrop. by injection Hdrop. }
    rewrite (emitTensorView_step _ _ _ _ _ Hj).
    cbn [mbind outcome_mbind outcome_bind]. rewrite (IH _ _ Hdrop').
    cbn [writes bufferInfos imageInfos].
    rewrite (emittedWrites_cons _ _ _ view views), (emittedInfos_cons view views).
    rewrite length_app, (emittedInfos_length [view]), <- !app_assoc.
    cbn [length]. by rewrite Nat.mul_1_r.
Qed.

(** A tensor write that carries its tensor-view structure. *)
Lemma rewriteWrite_tensor st write tensorInfo :
  hasTensor write = true →
  findType (VkWriteDescriptorSet.pNext write) = Some tensorInfo →
  rewriteWrite cfg getDescriptorBuffer getTensorBuffer dev st write
  = Ok {| writes :=
            writes st ++ emittedWrites cfg write (length (bufferInfos st)) 0
                           (VkWriteDescriptorSetTensorARM.pTensorViews tensorInfo);
          bufferInfos :=
            bufferInfos st ++ emittedInfos cfg getDescriptorBuffer getTensorBuffer dev
                                (VkWriteDescriptorSetTensorARM.pTensorViews tensorInfo);
          imageInfos := imageInfos st |}.
Proof.
  intros Ht Hinfo. unfold rewriteWrite. rewrite Ht, Hinfo. cbn [negb].
  by apply emitTensorView_loop.
Qed.

(** A tensor write without tensor-view structure. *)
Lemma rewriteWrite_missing st write :
  hasTensor write = true →
  findType (VkWriteDescriptorSet.pNext write) = None →
  rewriteWrite cfg getDescriptorBuffer getTensorBuffer dev st write
  = Throw MissingTensorInfo.
Proof. intros Ht Hinfo. unfold rewriteWrite. by rewrite Ht, Hinfo. Qed.

(** A write that is not a tensor write and whose first image-info record
    is in the tensor-aliasing layout. *)
Lemma rewriteWrite_aliasing st write info rest :
  hasTensor write = false →
  VkWriteDescriptorSet.pImageInfo write = caller_array (info :: rest) →
  VkDescriptorImageInfo.imageLayout info = VK_IMAGE_LAYOUT_TENSOR_ALIASING_ARM →
  rewriteWrite cfg getDescriptorBuffer getTensorBuffer dev st write
  = Ok {| writes :=
            writes st
              ++ [VkWriteDescriptorSet.set_pImageInfo
                    (list_node (length (imageInfos st))) write];
          bufferInfos := bufferInfos st;
          imageInfos :=
            imageInfos st
              ++ [VkDescriptorImageInfo.mk (VkDescriptorImageInfo.sampler info)
                    (VkDescriptorImageInfo.imageView info) VK_IMAGE_LAYOUT_GENERAL] |}.
Proof.
  intros Ht Hp Hlayout. unfold rewriteWrite. rewrite Ht, Hp. cbn.
  rewrite Hlayout. cbn. rewrite length_app. cbn [length].
  by replace (length (imageInfos st) + 1 - 1)%nat with (length (imageInfos st)) by lia.
Qed.

(** Every other write that is not a tensor write passes through. *)
Lemma rewriteWrite_passthrough st write :
  hasTensor write = false →
  match VkWriteDescriptorSet.pImageInfo write with
  | nullptr => True
  | caller_array (info :: _) =>
      VkDescriptorImageInfo.imageLayout info ≠ VK_IMAGE_LAYOUT_TENSOR_ALIASING_ARM
  | _ => False
  end →
  rewriteWrite cfg getDescriptorBuffer getTensorBuffer dev st write
  = Ok {| writes := writes st ++ [write];
          bufferInfos := bufferInfos st;
          imageInfos := imageInfos st |}.
Proof.
  intros Ht Hp. unfold rewriteWrite. rewrite Ht.
  destruct (VkWriteDescriptorSet.pImageInfo write) as [|[|info rest]|]; try done.
  cbn. by rewrite bool_decide_eq_true_2.
Qed.

(** A successful iteration only appends. *)
Lemma rewriteWrite_extends st write st' :
  rewriteWrite cfg getDescriptorBuffer getTensorBuffer dev st write = Ok st' →
  writes st `prefix_of` writes st'
  ∧ bufferInfos st `prefix_of` bufferInfos st'
  ∧ imageInfos st `prefix_of` imageInfos st'.
Proof.
  destruct (hasTensor write) eqn:Ht.
  - destruct (findType (VkWriteDescriptorSet.pNext write)) as [tensorInfo|] eqn:Hinfo.
    + rewrite (rewriteWrite_tensor _ _ _ Ht Hinfo). intros [= <-]. cbn.
      repeat split; (by apply prefix_app_r || done).
    + by rewrite (rewriteWrite_missing _ _ Ht Hinfo).
  - destruct (VkWriteDescriptorSet.pImageInfo write) as [|[|info rest]|] eqn:Hp.
    + rewrite rewriteWrite_passthrough by (done || by rewrite Hp).
      intros [= <-]. cbn. repeat split; (by apply prefix_app_r || done).
    + unfold rewriteWrite. by rewrite Ht, Hp.
    + destruct (decide (VkDescriptorImageInfo.imageLayout info
                        = VK_IMAGE_LAYOUT_TENSOR_ALIASING_ARM)) as [Hl|Hl].
      * rewrite (rewriteWrite_aliasing _ _ _ _ Ht Hp Hl).
        intros [= <-]. cbn. repeat split; (by apply prefix_app_r || done).
      * rewrite rewriteWrite_passthrough by (done || by rewrite Hp).
        intros [= <-]. cbn. repeat split; (by apply prefix_app_r || done).
    + unfold rewriteWrite. by rewrite Ht, Hp.
Qed.

Lemma rewriteWrite_loop_extends pDescriptorWrites :
  ∀ st st',
    foldM (rewriteWrite cfg getDescriptorBuffer getTensorBuffer dev) st pDescriptorWrites
    = Ok st' →
    writes st `prefix_of` writes st'
    ∧ bufferInfos st `prefix_of` bufferInfos st'
    ∧ imageInfos st `prefix_of` imageInfos st'.
Proof.
  induction pDescriptorWrites as [|write l IH]; intros st st'; cbn [foldM].
  - by intros [= <-].
  - destruct (rewriteWrite cfg getDescriptorBuffer getTensorBuffer dev st write)
      as [st1| | |] eqn:H1; cbn; try done.
    intros H2. apply rewriteWrite_extends in H1 as (?&?&?).
    apply IH in H2 as (?&?&?). repeat split; by etrans.
Qed.

Lemma emittedWrites_lookup_uniform write views :
  ∀ node j i view,
    views !! i = Some view →
    emittedWrites cfg write node j views !! (perView cfg * i)%nat
    = Some (uniformWrite write (j + i) (node + perView cfg * i)).
Proof.
  unfold perView. destruct (EXPERIMENTAL_MOLTEN_VK_SUPPORT cfg) eqn:Hexp;
    induction views as [|v views IH]; intros node j [|i] view Hi; try done;
    cbn [emittedWrites]; rewrite Hexp.
  - cbn. by rewrite !Nat.add_0_r.
  - replace (2 * S i)%nat with (S (S (2 * i))) by lia. cbn [lookup list_lookup].
    rewrite (IH _ _ _ _ Hi). do 2 f_equal; lia.
  - cbn. by rewrite !Nat.add_0_r.
  - replace (1 * S i)%nat with (S (1 * i)) by lia. cbn [lookup list_lookup].
    rewrite (IH _ _ _ _ Hi). do 2 f_equal; lia.
Qed.

Lemma emittedWrites_lookup_storage write views :
  EXPERIMENTAL_MOLTEN_VK_SUPPORT cfg = true →
  ∀ node j i view,
    views !! i = Some view →
    emittedWrites cfg write node j views !! (2 * i + 1)%nat
    = Some (storageWrite cfg write (j + i) (node + 2 * i + 1)).
Proof.
  intros Hexp. induction views as [|v views IH]; intros node j [|i] view Hi; try done;
    cbn [emittedWrites]; rewrite Hexp.
  - cbn. do 3 f_equal; lia.
  - replace (2 * S i + 1)%nat with (S (S (2 * i + 1))) by lia. cbn [lookup list_lookup].
    rewrite (IH _ _ _ _ Hi). do 2 f_equal; lia.
Qed.

Lemma emittedInfos_lookup_descriptor views :
  ∀ i view,
    views !! i = Some view →
    emittedInfos cfg getDescriptorBuffer getTensorBuffer dev views !! (perView cfg * i)%nat
    = Some (wholeBuffer (getDescriptorBuffer view dev)).
Proof.
  unfold perView. destruct (EXPERIMENTAL_MOLTEN_VK_SUPPORT cfg) eqn:Hexp;
    induction views as [|v views IH]; intros [|i] view Hi; try done;
    cbn [emittedInfos]; rewrite Hexp.
  - cbn in *. by injection Hi as ->.
  - replace (2 * S i)%nat with (S (S (2 * i))) by lia. cbn [lookup list_lookup]. by apply IH.
  - cbn in *. by injection Hi as ->.
  - replace (1 * S i)%nat with (S (1 * i)) by lia. cbn [lookup list_lookup]. by apply IH.
Qed.

Lemma emittedInfos_lookup_tensor views :
  EXPERIMENTAL_MOLTEN_VK_SUPPORT cfg = true →
  ∀ i view,
    views !! i = Some view →
    emittedInfos cfg getDescriptorBuffer getTensorBuffer dev views !! (2 * i + 1)%nat
    = Some (wholeBuffer (getTensorBuffer view)).
Proof.
  intros Hexp. induction views as [|v views IH]; intros [|i] view Hi; try done;
    cbn [emittedInfos]; rewrite Hexp.
  - cbn in *. by injection Hi as ->.
  - replace (2 * S i + 1)%nat with (S (S (2 * i + 1))) by lia. cbn [lookup list_lookup].
    by apply IH.
Qed.

Lemma emittedWrites_count_uniform write views :
  ∀ node j,
    length (filter (λ w, VkWriteDescriptorSet.descriptorType w
                         = VK_DESCRIPTOR_TYPE_UNIFORM_BUFFER)
              (emittedWrites cfg write node j views))
    = length views.
Proof.
  induction views as [|v views IH]; intros node j; [done|].
  cbn [emittedWrites]. destruct (EXPERIMENTAL_MOLTEN_VK_SUPPORT cfg);
    rewrite !filter_cons; unfold uniformWrite, storageWrite;
    cbn [VkWriteDescriptorSet.descriptorType];
    repeat case_decide; try done; cbn [length]; by rewrite IH.
Qed.

Lemma emittedWrites_count_storage write views :
  ∀ node j,
    length (filter (λ w, VkWriteDescriptorSet.descriptorType w
                         = VK_DESCRIPTOR_TYPE_STORAGE_BUFFER)
              (emittedWrites cfg write node j views))
    = if EXPERIMENTAL_MOLTEN_VK_SUPPORT cfg then length views else 0%nat.
Proof.
  induction views as [|v views IH]; intros node j.
  - by destruct (EXPERIMENTAL_MOLTEN_VK_SUPPORT cfg).
  - cbn [emittedWrites].
    destruct (EXPERIMENTAL_MOLTEN_VK_SUPPORT cfg) eqn:Hexp;
      rewrite !filter_cons; unfold uniformWrite, storageWrite;
      cbn [VkWriteDescriptorSet.descriptorType];
      repeat case_decide; try done; cbn [length]; by rewrite IH.
Qed.

(** C4: a tensor write carrying N tensor views is rewritten into exactly N
    uniform-buffer writes (and, in the experimental build only, N
    storage-buffer writes).  The j-th uniform-buffer write has the
    destination set and binding of the original, the array element
    [dstArrayElement + j] (a [uint32_t] sum), descriptor count 1, and the
    address of a buffer-info record of its own, which holds the descriptor
    buffer of the j-th view, offset 0 and the whole-buffer range.  This
    holds wherever the write stands in the call: the writes that precede it
    are [pre], and whatever follows only appends to the result. *)
Theorem substituteTensorWriteDescriptorSet_tensor pre write tensorInfo st :
  substituteTensorWriteDescriptorSet cfg getDescriptorBuffer getTensorBuffer dev pre = Ok st →
  hasTensor write = true →
  findType (VkWriteDescriptorSet.pNext write) = Some tensorInfo →
  ∃ st' emitted,
    substituteTensorWriteDescriptorSet cfg getDescriptorBuffer getTensorBuffer dev
      (pre ++ [write]) = Ok st'
    ∧ writes st' = writes st ++ emitted
    ∧ imageInfos st' = imageInfos st
    ∧ length emitted
      = (perView cfg * VkWriteDescriptorSetTensorARM.tensorViewCount tensorInfo)%nat
    ∧ length (bufferInfos st')
      = (length (bufferInfos st)
         + perView cfg * VkWriteDescriptorSetTensorARM.tensorViewCount tensorInfo)%nat
    ∧ length (filter (λ w, VkWriteDescriptorSet.descriptorType w
                           = VK_DESCRIPTOR_TYPE_UNIFORM_BUFFER) emitted)
      = VkWriteDescriptorSetTensorARM.tensorViewCount tensorInfo
    ∧ length (filter (λ w, VkWriteDescriptorSet.descriptorType w
                           = VK_DESCRIPTOR_TYPE_STORAGE_BUFFER) emitted)
      = (if EXPERIMENTAL_MOLTEN_VK_SUPPORT cfg
         then VkWriteDescriptorSetTensorARM.tensorViewCount tensorInfo else 0%nat)
    ∧ (∀ j view,
         VkWriteDescriptorSetTensorARM.pTensorViews tensorInfo !! j = Some view →
         emitted !! (perView cfg * j)%nat
         = Some (VkWriteDescriptorSet.mk
                   VK_STRUCTURE_TYPE_WRITE_DESCRIPTOR_SET []
                   (VkWriteDescriptorSet.dstSet write)
                   (VkWriteDescriptorSet.dstBinding write)
                   (add32 (VkWriteDescriptorSet.dstArrayElement write) (Z.of_nat j))
                   1 VK_DESCRIPTOR_TYPE_UNIFORM_BUFFER
                   nullptr
                   (list_node (length (bufferInfos st) + perView cfg * j))
                   nullptr)
         ∧ bufferInfos st' !! (length (bufferInfos st) + perView cfg * j)%nat
           = Some (VkDescriptorBufferInfo.mk (getDescriptorBuffer view dev) 0 VK_WHOLE_SIZE))
    ∧ (EXPERIMENTAL_MOLTEN_VK_SUPPORT cfg = true →
       ∀ j view,
         VkWriteDescriptorSetTensorARM.pTensorViews tensorInfo !! j = Some view →
         emitted !! (2 * j + 1)%nat
         = Some (storageWrite cfg write j (length (bufferInfos st) + 2 * j + 1))
         ∧ bufferInfos st' !! (length (bufferInfos st) + 2 * j + 1)%nat
           = Some (wholeBuffer (getTensorBuffer view)))
    ∧ (∀ post final,
         substituteTensorWriteDescriptorSet cfg getDescriptorBuffer getTensorBuffer dev
           (pre ++ write :: post) = Ok final →
         writes st' `prefix_of` writes final
         ∧ bufferInfos st' `prefix_of` bufferInfos final).
Proof.
  intros Hpre Ht Hinfo. unfold substituteTensorWriteDescriptorSet in *.
  set (views := VkWriteDescriptorSetTensorARM.pTensorViews tensorInfo).
  pose proof (rewriteWrite_tensor st write tensorInfo Ht Hinfo) as Hstep.
  fold views in Hstep.
  eexists _, (emittedWrites cfg write (length (bufferInfos st)) 0 views).
  split.
  { rewrite foldM_app, Hpre. cbn [mbind outcome_mbind outcome_bind foldM].
    rewrite Hstep. reflexivity. }
  cbn [writes bufferInfos imageInfos].
  unfold VkWriteDescriptorSetTensorARM.tensorViewCount. fold views.
  split; [done|]. split; [done|].
  split; [apply emittedWrites_length|].
  split; [by rewrite length_app, emittedInfos_length|].
  split; [apply emittedWrites_count_uniform|].
  split; [apply emittedWrites_count_storage|].
  split; [|split].
  - intros j view Hj. split.
    + by rewrite (emittedWrites_lookup_uniform _ _ _ _ _ _ Hj).
    + rewrite lookup_app_r by lia.
      replace (length (bufferInfos st) + perView cfg * j - length (bufferInfos st))%nat
        with (perView cfg * j)%nat by lia.
      by apply emittedInfos_lookup_descriptor.
  - intros Hexp j view Hj. split.
    + by rewrite (emittedWrites_lookup_storage _ _ Hexp _ _ _ _ Hj).
    + rewrite lookup_app_r by lia.
      replace (length (bufferInfos st) + 2 * j + 1 - length (bufferInfos st))%nat
        with (2 * j + 1)%nat by lia.
      by apply emittedInfos_lookup_tensor.
  - intros post final. rewrite foldM_app, Hpre.
    cbn [mbind outcome_mbind outcome_bind foldM]. rewrite Hstep.
    cbn [mbind outcome_mbind outcome_bind]. intros Hfinal.
    apply rewriteWrite_loop_extends in Hfinal as (?&?&?). done.
Qed.

End writes.

Example substituteTensorWriteDescriptorSet_two_views :
  substituteTensorWriteDescriptorSet default_build
    example_getDescriptorBuffer example_getTensorBuffer () [sampler_write; two_view_write]
  = Ok {| writes :=
            [sampler_write;
             VkWriteDescriptorSet.mk VK_STRUCTURE_TYPE_WRITE_DESCRIPTOR_SET [] 1 2 3 1
               VK_DESCRIPTOR_TYPE_UNIFORM_BUFFER nullptr (list_node 0) nullptr;
             VkWriteDescriptorSet.mk VK_STRUCTURE_TYPE_WRITE_DESCRIPTOR_SET [] 1 2 4 1
               VK_DESCRIPTOR_TYPE_UNIFORM_BUFFER nullptr (list_node 1) nullptr];
          bufferInfos :=
            [VkDescriptorBufferInfo.mk 1007 0 VK_WHOLE_SIZE;
             VkDescriptorBufferInfo.mk 1008 0 VK_WHOLE_SIZE];
          imageInfos := [] |}.
Proof. reflexivity. Qed.

Lemma substituteTensorWriteDescriptorSet_tensor_witness :
  ∃ st',
    substituteTensorWriteDescriptorSet default_build
      example_getDescriptorBuffer example_getTensorBuffer ()
      ([sampler_write] ++ [two_view_write]) = Ok st'
    ∧ length (writes st') = 3%nat
    ∧ bufferInfos st' !! 1%nat = Some (VkDescriptorBufferInfo.mk 1008 0 VK_WHOLE_SIZE).
Proof.
  destruct (substituteTensorWriteDescriptorSet_tensor default_build
              example_getDescriptorBuffer example_getTensorBuffer ()
              [sampler_write] two_view_write
              (VkWriteDescriptorSetTensorARM.mk [7; 8])
              {| writes := [sampler_write]; bufferInfos := []; imageInfos := [] |}
              eq_refl eq_refl eq_refl)
    as (st' & emitted & Hcall & Hwrites & _ & Hlen & _ & _ & _ & Hview & _).
  exists st'. split; [exact Hcall|]. split.
  - rewrite Hwrites, length_app, Hlen. reflexivity.
  - exact (proj2 (Hview 1%nat 8 eq_refl)).
Defined.


(** X22: a write of a single image descriptor in the tensor-aliasing layout:
    the emitted write differs from the original in its image-info pointer
    only, and the record behind that pointer differs from the original in its
    layout only, which is the general layout. *)
Lemma substituteTensorWriteDescriptorSet_aliasing_single cfg {Device : Type}
    (getDescriptorBuffer : handle → Device → handle) (getTensorBuffer : handle → handle)
    (dev : Device) write info :
  hasTensor write = false →
  VkWriteDescriptorSet.pImageInfo write = caller_array [info] →
  VkDescriptorImageInfo.imageLayout info = VK_IMAGE_LAYOUT_TENSOR_ALIASING_ARM →
  ∃ st' write',
    substituteTensorWriteDescriptorSet cfg getDescriptorBuffer getTensorBuffer dev [write]
    = Ok st'
    ∧ writes st' = [write']
    ∧ write' = VkWriteDescriptorSet.set_pImageInfo (VkWriteDescriptorSet.pImageInfo write') write
    ∧ readable (imageInfos st') (VkWriteDescriptorSet.pImageInfo write')
      = [VkDescriptorImageInfo.mk (VkDescriptorImageInfo.sampler info)
           (VkDescriptorImageInfo.imageView info) VK_IMAGE_LAYOUT_GENERAL].
Proof.
  intros Ht Hp Hl. unfold substituteTensorWriteDescriptorSet. cbn [foldM].
  rewrite (rewriteWrite_aliasing _ _ _ _ _ _ _ _ Ht Hp Hl).
  cbn [mbind outcome_mbind outcome_bind writes imageInfos app length].
  eexists _, _. split; [reflexivity|]. cbn. repeat split.
Qed.

(** C9, at the input where the code departs from it: a storage-image write
    of two descriptors, both in the tensor-aliasing layout.  The emitted
    write keeps the descriptor count 2, and its image-info pointer is the
    address of one list node holding the first record with the general
    layout: the second record of the original (image view 102) is not behind
    the emitted write. *)
Theorem substituteTensorWriteDescriptorSet_aliasing_pair :
  substituteTensorWriteDescriptorSet default_build
    example_getDescriptorBuffer example_getTensorBuffer () [aliasing_pair_write]
  = Ok {| writes := [VkWriteDescriptorSet.set_pImageInfo (list_node 0) aliasing_pair_write];
          bufferInfos := [];
          imageInfos := [VkDescriptorImageInfo.mk 0 101 VK_IMAGE_LAYOUT_GENERAL] |}
  ∧ VkWriteDescriptorSet.descriptorCount
      (VkWriteDescriptorSet.set_pImageInfo (list_node 0) aliasing_pair_write) = 2
  ∧ readable [VkDescriptorImageInfo.mk 0 101 VK_IMAGE_LAYOUT_GENERAL] (list_node 0)
    = [VkDescriptorImageInfo.mk 0 101 VK_IMAGE_LAYOUT_GENERAL]
  ∧ readable [] (VkWriteDescriptorSet.pImageInfo aliasing_pair_write)
    = [VkDescriptorImageInfo.mk 0 101 VK_IMAGE_LAYOUT_TENSOR_ALIASING_ARM;
       VkDescriptorImageInfo.mk 0 102 VK_IMAGE_LAYOUT_TENSOR_ALIASING_ARM].
Proof. repeat split; reflexivity. Qed.

(** ** Descriptor-set-layout bindings *)

Example substituteTensorBinding_example :
  substituteTensorBinding default_build 4 1%positive (Some 2%positive) example_heap
  = Ok ([VkDescriptorSetLayoutBinding.mk 0 VK_DESCRIPTOR_TYPE_SAMPLER 1 32 nullptr;
         VkDescriptorSetLayoutBinding.mk 1 VK_DESCRIPTOR_TYPE_STORAGE_BUFFER 2 32 nullptr;
         VkDescriptorSetLayoutBinding.mk 2 VK_DESCRIPTOR_TYPE_UNIFORM_BUFFER 1 32 nullptr;
         VkDescriptorSetLayoutBinding.mk 3 VK_DESCRIPTOR_TYPE_UNIFORM_BUFFER 1 32 nullptr],
        <[3%positive := BindingFlagsArray [0; 3; 4; 4]]> example_heap).
Proof. vm_compute. reflexivity. Qed.

(** Clearing the update-after-bind bit clears bit 0 of the flag word and
    keeps its other bits. *)
Lemma clear_update_after_bind_bits (f n : Z) :
  0 ≤ n < 32 →
  Z.testbit (clear_update_after_bind f) n = if n =? 0 then false else Z.testbit f n.
Proof.
  intros Hn. unfold clear_update_after_bind, wrap, VK_DESCRIPTOR_BINDING_UPDATE_AFTER_BIND_BIT.
  rewrite Z.land_spec, Z.mod_pow2_bits_low, Z.lnot_spec by lia.
  destruct (n =? 0) eqn:E.
  - apply Z.eqb_eq in E as ->. apply andb_false_r.
  - apply Z.eqb_neq in E. rewrite (Z.bits_above_log2 1 n) by (cbn; lia).
    apply andb_true_r.
Qed.

Lemma clearedFlags_length bindings flags :
  length (clearedFlags bindings flags) = length flags.
Proof.
  revert flags. induction bindings as [|b bs IH]; intros [|f fl]; cbn; auto.
Qed.

Lemma clearedFlags_lookup bindings flags (i : nat) :
  clearedFlags bindings flags !! i
  = (λ f, match bindings !! i with
          | Some b => if hasTensor b then clear_update_after_bind f else f
          | None => f
          end) <$> flags !! i.
Proof.
  revert flags i. induction bindings as [|b bs IH]; intros [|f fl] [|i]; cbn;
    try done; try apply IH; by destruct (fl !! i).
Qed.

Lemma clearedFlags_snoc bindings b flags f :
  flags !! length bindings = Some f →
  clearedFlags (bindings ++ [b]) flags
  = <[length bindings := if hasTensor b then clear_update_after_bind f else f]>
      (clearedFlags bindings flags).
Proof.
  revert flags. induction bindings as [|b' bs IH]; intros [|f' fl] Hf; cbn in *; try done.
  - by injection Hf as ->.
  - by rewrite (IH _ Hf).
Qed.

Section bindings.
Context (cfg : BuildConfig).
Context (h : heap) (pBindings : loc) (bindings : list VkDescriptorSetLayoutBinding.t).
Context (bindingInfo : option loc) (supplied : option (loc * list Z)).
Hypothesis bindings_at : h !! pBindings = Some (BindingArray bindings).
Hypothesis flags_at : flagsArgument h (length bindings) bindingInfo supplied.

(** The flags update leaves the objects that are not flag arrays alone. *)
Lemma heapAfter_other done l o :
  h !! l = Some o →
  (∀ flags, o ≠ BindingFlagsArray flags) →
  heapAfter h done supplied !! l = Some o.
Proof using flags_at.
  intros Hl Ho. destruct flags_at as [|bi info pf flags Hbi Hpf Hflags Hlen]; cbn; [done|].
  rewrite lookup_insert_ne; [done|]. intros ->. rewrite Hflags in Hl.
  injection Hl as <-. by eapply Ho.
Qed.

Lemma load_binding_after done i b :
  bindings !! i = Some b →
  load_binding (heapAfter h done supplied) pBindings i = Ok b.
Proof using bindings_at flags_at.
  intros Hi. unfold load_binding.
  rewrite (heapAfter_other done _ _ bindings_at) by done. by rewrite Hi.
Qed.

Lemma load_binding_at i b :
  bindings !! i = Some b → load_binding h pBindings i = Ok b.
Proof using bindings_at. intros Hi. unfold load_binding. by rewrite bindings_at, Hi. Qed.

Lemma load_bindings_from todo :
  ∀ done acc,
    bindings = done ++ todo →
    foldM (λ v i, b ← load_binding h pBindings i; Ok (v ++ [b])) acc
          (seq (length done) (length todo))
    = Ok (acc ++ todo).
Proof using bindings_at.
  induction todo as [|b todo IH]; intros done acc Heq; cbn [length seq foldM].
  - by rewrite app_nil_r.
  - rewrite (load_binding_at (length done) b)
      by (rewrite Heq; by apply list_lookup_middle).
    cbn [mbind outcome_mbind outcome_bind].
    specialize (IH (done ++ [b]) (acc ++ [b])).
    rewrite length_app, Nat.add_1_r, <- !app_assoc in IH. by apply IH.
Qed.

Lemma load_bindings_all : load_bindings h pBindings (length bindings) = Ok bindings.
Proof using bindings_at. by apply (load_bindings_from bindings [] []). Qed.
Lemma flags_available done b todo pBindingFlags flags :
  bindings = done ++ b :: todo →
  supplied = Some (pBindingFlags, flags) →
  is_Some (flags !! length done).
Proof using flags_at.
  intros Heq Hs. apply lookup_lt_is_Some.
  destruct flags_at as [|bi info pf fl Hbi Hpf Hflags Hlen]; [done|].
  injection Hs as -> ->. rewrite Heq, length_app in Hlen. cbn in Hlen. lia.
Qed.

(** The memory is the same after a binding that is not a tensor. *)
Lemma heapAfter_snoc_other done b todo :
  bindings = done ++ b :: todo →
  hasTensor b = false →
  heapAfter h (done ++ [b]) supplied = heapAfter h done supplied.
Proof using flags_at.
  intros Heq Hb. pose proof (flags_available done b todo) as Havail.
  destruct supplied as [[pf flags]|]; [|done]. cbn.
  destruct (Havail pf flags Heq eq_refl) as [f Hf].
  rewrite (clearedFlags_snoc _ _ _ _ Hf), Hb, list_insert_id; [done|].
  rewrite clearedFlags_lookup, Hf. cbn. by rewrite lookup_ge_None_2.
Qed.

(** The store of the cleared flag word of a tensor binding. *)
Lemma store_cleared_flag_after done b todo bi :
  bindings = done ++ b :: todo →
  bindingInfo = Some bi →
  hasTensor b = true →
  store_cleared_flag (heapAfter h done supplied) bi (length done)
  = Ok (heapAfter h (done ++ [b]) supplied).
Proof using flags_at.
  intros Heq Hbi Hb. unfold store_cleared_flag.
  pose proof (flags_available done b todo) as Havail.
  destruct flags_at as [|bi' info pf flags Hinfo Hpf Hflags Hlen]; [done|].
  injection Hbi as ->. destruct (Havail pf flags Heq eq_refl) as [f Hf].
  cbn [heapAfter]. rewrite lookup_insert_ne.
  2:{ intros ->. rewrite Hflags in Hinfo. discriminate. }
  rewrite Hinfo, Hpf. cbn [deref mbind outcome_mbind outcome_bind].
  rewrite lookup_insert_eq, clearedFlags_lookup, Hf.
  cbn [fmap option_fmap option_map deref mbind outcome_mbind outcome_bind].
  rewrite lookup_ge_None_2 by done.
  by rewrite insert_insert_eq, (clearedFlags_snoc _ _ _ _ Hf), Hb.
Qed.

Lemma appendedBindings_snoc_other done b :
  hasTensor b = false →
  appendedBindings cfg (done ++ [b]) = appendedBindings cfg done.
Proof.
  intros Hb. unfold appendedBindings.
  destruct (EXPERIMENTAL_MOLTEN_VK_SUPPORT cfg); [|done].
  rewrite filter_app, filter_cons, filter_nil. case_decide; [congruence|].
  by rewrite app_nil_r.
Qed.

Lemma appendedBindings_snoc_tensor done b :
  hasTensor b = true →
  appendedBindings cfg (done ++ [b])
  = appendedBindings cfg done
      ++ (if EXPERIMENTAL_MOLTEN_VK_SUPPORT cfg then
            [VkDescriptorSetLayoutBinding.mk
               (add32 (VkDescriptorSetLayoutBinding.binding b)
                      (EXPERIMENTAL_MVK_BUFFER_BINDING_OFFSET cfg))
               VK_DESCRIPTOR_TYPE_STORAGE_BUFFER
               (VkDescriptorSetLayoutBinding.descriptorCount b)
               (VkDescriptorSetLayoutBinding.stageFlags b)
               nullptr]
          else []).
Proof.
  intros Hb. unfold appendedBindings.
  destruct (EXPERIMENTAL_MOLTEN_VK_SUPPORT cfg); [|done].
  rewrite filter_app, filter_cons, filter_nil. case_decide; [|congruence].
  by rewrite fmap_app.
Qed.

(** One iteration of the loop, on the state reached after the bindings
    [done]. *)
Lemma substituteTensorBinding_step done b todo :
  bindings = done ++ b :: todo →
  substituteTensorBinding_body cfg pBindings bindingInfo
    ((substitutedBinding <$> done) ++ (b :: todo) ++ appendedBindings cfg done,
     heapAfter h done supplied)
    (length done)
  = Ok ((substitutedBinding <$> (done ++ [b])) ++ todo ++ appendedBindings cfg (done ++ [b]),
        heapAfter h (done ++ [b]) supplied).
Proof using bindings_at flags_at.
  intros Heq. unfold substituteTensorBinding_body.
  rewrite (load_binding_after done (length done) b)
    by (rewrite Heq; by apply list_lookup_middle).
  cbn [mbind outcome_mbind outcome_bind].
  rewrite fmap_app. cbn [fmap list_fmap].
  destruct (hasTensor b) eqn:Hb.
  - assert (Hsb : substitutedBinding b
                  = VkDescriptorSetLayoutBinding.mk
                      (VkDescriptorSetLayoutBinding.binding b)
                      VK_DESCRIPTOR_TYPE_UNIFORM_BUFFER
                      (VkDescriptorSetLayoutBinding.descriptorCount b)
                      (VkDescriptorSetLayoutBinding.stageFlags b)
                      (VkDescriptorSetLayoutBinding.pImmutableSamplers b)).
    { unfold substitutedBinding. by rewrite Hb. }
    rewrite Hsb. clear Hsb.
    rewrite alter_app_r_alt by (by rewrite length_fmap).
    rewrite length_fmap, Nat.sub_diag. cbn [alter list_alter app].
    rewrite (appendedBindings_snoc_tensor _ _ Hb).
    assert (Hvec :
      (if EXPERIMENTAL_MOLTEN_VK_SUPPORT cfg
       then ((substitutedBinding <$> done)
              ++ VkDescriptorSetLayoutBinding.set_descriptorType
                   VK_DESCRIPTOR_TYPE_UNIFORM_BUFFER b
                 :: todo ++ appendedBindings cfg done)
              ++ [VkDescriptorSetLayoutBinding.mk
                    (add32 (VkDescriptorSetLayoutBinding.binding b)
                           (EXPERIMENTAL_MVK_BUFFER_BINDING_OFFSET cfg))
                    VK_DESCRIPTOR_TYPE_STORAGE_BUFFER
                    (VkDescriptorSetLayoutBinding.descriptorCount b)
                    (VkDescriptorSetLayoutBinding.stageFlags b)
                    nullptr]
       else (substitutedBinding <$> done)
              ++ VkDescriptorSetLayoutBinding.set_descriptorType
                   VK_DESCRIPTOR_TYPE_UNIFORM_BUFFER b
                 :: todo ++ appendedBindings cfg done)
      = ((substitutedBinding <$> done)
           ++ [VkDescriptorSetLayoutBinding.mk
                 (VkDescriptorSetLayoutBinding.binding b)
                 VK_DESCRIPTOR_TYPE_UNIFORM_BUFFER
                 (VkDescriptorSetLayoutBinding.descriptorCount b)
                 (VkDescriptorSetLayoutBinding.stageFlags b)
                 (VkDescriptorSetLayoutBinding.pImmutableSamplers b)])
          ++ todo ++ appendedBindings cfg done
               ++ (if EXPERIMENTAL_MOLTEN_VK_SUPPORT cfg then
                     [VkDescriptorSetLayoutBinding.mk
                        (add32 (VkDescriptorSetLayoutBinding.binding b)
                               (EXPERIMENTAL_MVK_BUFFER_BINDING_OFFSET cfg))
                        VK_DESCRIPTOR_TYPE_STORAGE_BUFFER
                        (VkDescriptorSetLayoutBinding.descriptorCount b)
                        (VkDescriptorSetLayoutBinding.stageFlags b)
                        nullptr]
                   else [])).
    { unfold VkDescriptorSetLayoutBinding.set_descriptorType.
      destruct (EXPERIMENTAL_MOLTEN_VK_SUPPORT cfg);
        rewrite <- ?app_assoc; cbn [app]; rewrite ?app_nil_r, <- ?app_assoc; done. }
    rewrite Hvec.
    pose proof (store_cleared_flag_after done b todo) as Hstore.
    assert (Hnone : bindingInfo = None → supplied = None).
    { intros Hbi. destruct flags_at; [done|discriminate Hbi]. }
    destruct bindingInfo as [bi|].
    + by rewrite (Hstore bi Heq eq_refl Hb).
    + by rewrite (Hnone eq_refl).
  - assert (Hsb : substitutedBinding b = b).
    { unfold substitutedBinding. by rewrite Hb. }
    rewrite Hsb, (appendedBindings_snoc_other _ _ Hb), (heapAfter_snoc_other _ _ _ Heq Hb).
    by rewrite <- app_assoc.
Qed.

Lemma substituteTensorBinding_loop todo :
  ∀ done,
    bindings = done ++ todo →
    foldM (substituteTensorBinding_body cfg pBindings bindingInfo)
          ((substitutedBinding <$> done) ++ todo ++ appendedBindings cfg done,
           heapAfter h done supplied)
          (seq (length done) (length todo))
    = Ok ((substitutedBinding <$> bindings) ++ appendedBindings cfg bindings,
          heapAfter h bindings supplied).
Proof using bindings_at flags_at.
  induction todo as [|b todo IH]; intros done Heq; cbn [length seq foldM].
  - rewrite app_nil_r in Heq. by rewrite Heq.
  - rewrite (substituteTensorBinding_step done b todo Heq).
    cbn [mbind outcome_mbind outcome_bind].
    specialize (IH (done ++ [b])). rewrite length_app, Nat.add_1_r in IH.
    apply IH. by rewrite <- app_assoc.
Qed.

Lemma heapAfter_nil : heapAfter h [] supplied = h.
Proof using flags_at.
  destruct flags_at as [|bi info pf flags Hbi Hpf Hflags Hlen]; [done|].
  cbn. by apply insert_id.
Qed.

(** The result of the call: each binding substituted in place, the
    bindings of the experimental build appended, and the flag words of the
    tensor bindings cleared in the caller's array. *)
Lemma substituteTensorBinding_result :
  substituteTensorBinding cfg (length bindings) pBindings bindingInfo h
  = Ok ((substitutedBinding <$> bindings) ++ appendedBindings cfg bindings,
        heapAfter h bindings supplied).
Proof using bindings_at flags_at.
  unfold substituteTensorBinding. rewrite load_bindings_all.
  cbn [mbind outcome_mbind outcome_bind].
  pose proof (substituteTensorBinding_loop bindings [] eq_refl) as Hloop.
  rewrite heapAfter_nil in Hloop. cbn in Hloop.
  assert (Hnil : appendedBindings cfg [] = []).
  { unfold appendedBindings. by destruct (EXPERIMENTAL_MOLTEN_VK_SUPPORT cfg). }
  rewrite Hnil, app_nil_r in Hloop. exact Hloop.
Qed.
End bindings.

(** C3: every tensor binding is replaced, at its index, by a uniform-buffer
    binding with the same binding number, descriptor count and stage flags;
    every other binding stays as it is at its index; and when the flags
    array is supplied, the update-after-bind bit (bit 0) of the flag word at
    the index of each tensor binding is cleared, the other bits of that word
    and the words at all other indices being left as they were. *)
Theorem substituteTensorBinding_bindings_and_flags cfg h pBindings bindings
    bindingInfo supplied :
  h !! pBindings = Some (BindingArray bindings) →
  flagsArgument h (length bindings) bindingInfo supplied →
  ∃ out h',
    substituteTensorBinding cfg (length bindings) pBindings bindingInfo h = Ok (out, h')
    ∧ (∀ i b,
         bindings !! i = Some b →
         out !! i
         = Some (if hasTensor b
                 then VkDescriptorSetLayoutBinding.mk
                        (VkDescriptorSetLayoutBinding.binding b)
                        VK_DESCRIPTOR_TYPE_UNIFORM_BUFFER
                        (VkDescriptorSetLayoutBinding.descriptorCount b)
                        (VkDescriptorSetLayoutBinding.stageFlags b)
                        (VkDescriptorSetLayoutBinding.pImmutableSamplers b)
                 else b))
    ∧ (EXPERIMENTAL_MOLTEN_VK_SUPPORT cfg = false → length out = length bindings)
    ∧ (∀ pBindingFlags flags,
         supplied = Some (pBindingFlags, flags) →
         ∃ flags',
           h' !! pBindingFlags = Some (BindingFlagsArray flags')
           ∧ length flags' = length flags
           ∧ ∀ i f,
               flags !! i = Some f →
               ∃ f',
                 flags' !! i = Some f'
                 ∧ match bindings !! i with
                   | Some b =>
                       if hasTensor b
                       then Z.testbit f' 0 = false
                            ∧ (∀ n, 0 < n < 32 → Z.testbit f' n = Z.testbit f n)
                            ∧ f' = clear_update_after_bind f
                       else f' = f
                   | None => f' = f
                   end).
Proof.
  intros Hb Hf. eexists _, _. split; [by apply substituteTensorBinding_result|].
  split; [|split].
  - intros i b Hi. rewrite lookup_app_l by (rewrite length_fmap; by eapply lookup_lt_Some).
    by rewrite list_lookup_fmap, Hi.
  - intros Hexp. unfold appendedBindings. rewrite Hexp, app_nil_r. apply length_fmap.
  - intros pf flags ->. cbn [heapAfter]. eexists. rewrite lookup_insert_eq.
    split; [reflexivity|]. split; [apply clearedFlags_length|].
    intros i f Hi. eexists. rewrite clearedFlags_lookup, Hi. split; [reflexivity|].
    destruct (bindings !! i) as [b|]; [|done]. destruct (hasTensor b); [|done].
    split; [|split; [|done]].
    + by rewrite clear_update_after_bind_bits by lia.
    + intros n Hn. rewrite clear_update_after_bind_bits by lia.
      by rewrite (proj2 (Z.eqb_neq n 0)) by lia.
Qed.

Lemma substituteTensorBinding_bindings_and_flags_witness :
  ∃ out h',
    substituteTensorBinding default_build 4 1%positive (Some 2%positive) example_heap
    = Ok (out, h')
    ∧ out !! 2%nat
      = Some (VkDescriptorSetLayoutBinding.mk 2 VK_DESCRIPTOR_TYPE_UNIFORM_BUFFER 1 32 nullptr).
Proof.
  assert (Hflags : flagsArgument example_heap (length example_bindings)
                     (Some 2%positive) (Some (3%positive, example_flags))).
  { eapply flags_supplied; [reflexivity..|]. cbn. lia. }
  destruct (substituteTensorBinding_bindings_and_flags default_build example_heap
              1%positive example_bindings (Some 2%positive)
              (Some (3%positive, example_flags)) eq_refl Hflags)
    as (out & h' & Hcall & Hout & _).
  exists out, h'. split; [exact Hcall|]. exact (Hout 2%nat _ eq_refl).
Defined.

(** C10: when the binding-flags structure is supplied, the cleared flag
    words are written into the caller's own flags array: after the call that
    array, at its address, holds the cleared words; the returned vector is
    the one a call without flags returns; and every other object of the
    caller's memory, the bindings array and the flags structure among them,
    is as it was. *)
Theorem substituteTensorBinding_mutates_flags_in_place cfg h pBindings bindings
    bindingInfo info pBindingFlags flags :
  h !! pBindings = Some (BindingArray bindings) →
  h !! bindingInfo = Some (BindingFlagsCreateInfo info) →
  VkDescriptorSetLayoutBindingFlagsCreateInfo.pBindingFlags info = Some pBindingFlags →
  h !! pBindingFlags = Some (BindingFlagsArray flags) →
  (length bindings ≤ length flags)%nat →
  ∃ out h',
    substituteTensorBinding cfg (length bindings) pBindings (Some bindingInfo) h = Ok (out, h')
    ∧ substituteTensorBinding cfg (length bindings) pBindings None h = Ok (out, h)
    ∧ h' !! pBindingFlags = Some (BindingFlagsArray (clearedFlags bindings flags))
    ∧ h' !! pBindings = Some (BindingArray bindings)
    ∧ h' !! bindingInfo = Some (BindingFlagsCreateInfo info)
    ∧ (∀ l, l ≠ pBindingFlags → h' !! l = h !! l)
    ∧ (∀ i b f,
         bindings !! i = Some b → hasTensor b = true → flags !! i = Some f →
         clearedFlags bindings flags !! i = Some (clear_update_after_bind f)
         ∧ (Z.testbit f 0 = true → h' !! pBindingFlags ≠ h !! pBindingFlags)).
Proof.
  intros Hb Hinfo Hpf Hflags Hlen.
  assert (Hsupplied : flagsArgument h (length bindings) (Some bindingInfo)
                        (Some (pBindingFlags, flags))) by by econstructor.
  eexists _, _. split; [by apply (substituteTensorBinding_result cfg _ _ _ _ _ Hb Hsupplied)|].
  split; [by apply (substituteTensorBinding_result cfg _ _ _ _ None Hb), flags_absent|].
  cbn [heapAfter].
  assert (Hcleared : ∀ i b f,
            bindings !! i = Some b → hasTensor b = true → flags !! i = Some f →
            clearedFlags bindings flags !! i = Some (clear_update_after_bind f)).
  { intros i b f Hi Ht Hfi. by rewrite clearedFlags_lookup, Hfi, Hi, Ht. }
  split; [apply lookup_insert_eq|].
  split; [rewrite lookup_insert_ne; [done|]; intros ->; congruence|].
  split; [rewrite lookup_insert_ne; [done|]; intros ->; congruence|].
  split; [intros l Hl; by rewrite lookup_insert_ne|].
  intros i b f Hi Ht Hfi. split; [by eapply Hcleared|].
  intros Hbit. rewrite lookup_insert_eq, Hflags. intros [= Heq].
  pose proof (Hcleared _ _ _ Hi Ht Hfi) as Hc. rewrite Heq, Hfi in Hc.
  injection Hc as Hc.
  pose proof (clear_update_after_bind_bits f 0 ltac:(lia)) as Hbits.
  rewrite <- Hc in Hbits. cbn [Z.eqb] in Hbits. congruence.
Qed.

Lemma substituteTensorBinding_mutates_flags_in_place_witness :
  ∃ out h',
    substituteTensorBinding default_build 4 1%positive (Some 2%positive) example_heap
    = Ok (out, h')
    ∧ h' !! 3%positive = Some (BindingFlagsArray [0; 3; 4; 4])
    ∧ h' !! 1%positive = Some (BindingArray example_bindings).
Proof.
  destruct (substituteTensorBinding_mutates_flags_in_place default_build example_heap
              1%positive example_bindings 2%positive
              (VkDescriptorSetLayoutBindingFlagsCreateInfo.mk 4 (Some 3%positive))
              3%positive example_flags eq_refl eq_refl eq_refl eq_refl)
    as (out & h' & Hcall & _ & Hflags & Hbindings & _).
  - cbn. lia.
  - exists out, h'. split; [exact Hcall|]. split; [exact Hflags|exact Hbindings].
Defined.

(** * Further properties *)

(** ** The scalar decoder *)

Lemma wrap_range (w z : Z) : 0 ≤ w → 0 ≤ wrap w z < 2 ^ w.
Proof. intros Hw. unfold wrap. apply Z.mod_pos_bound. by apply Z.pow_pos_nonneg. Qed.

Lemma pow2_half (w : Z) : 0 < w → 2 ^ w = 2 * 2 ^ (w - 1).
Proof.
  intros Hw. replace w with (Z.succ (w - 1)) at 1 by lia.
  rewrite Z.pow_succ_r by lia. done.
Qed.

Lemma to_signed_range (w z : Z) :
  0 < w → - 2 ^ (w - 1) ≤ to_signed w z < 2 ^ (w - 1).
Proof.
  intros Hw. unfold to_signed. cbn zeta.
  pose proof (wrap_range w z ltac:(lia)) as Hm. pose proof (pow2_half w Hw) as Hp.
  destruct (Z.ltb_spec (wrap w z) (2 ^ (w - 1))); lia.
Qed.

(** Reading a value through the signed type of [w] bits does not change it
    modulo a power of two up to [2^w]. *)
Lemma wrap_to_signed (w' w z : Z) :
  0 ≤ w' ≤ w → wrap w' (to_signed w z) = wrap w' z.
Proof.
  intros Hw. assert (Hdiv : (2 ^ w' | 2 ^ w)).
  { exists (2 ^ (w - w')). rewrite <- Z.pow_add_r by lia. f_equal. lia. }
  unfold to_signed, wrap. cbn zeta.
  destruct (_ <? _).
  - by apply Z.mod_mod_divide.
  - destruct Hdiv as [q Hq]. rewrite Hq at 2.
    rewrite <- (Z.mod_mod_divide z (2 ^ w) (2 ^ w')) by by exists q.
    rewrite Zminus_mod, Z.mod_mul, Z.sub_0_r, Z.mod_mod; [done|..];
      apply Z.pow_nonzero; lia.
Qed.

Lemma to_signed_to_signed (w' w z : Z) :
  0 ≤ w' ≤ w → to_signed w' (to_signed w z) = to_signed w' z.
Proof. intros Hw. unfold to_signed at 1 3. cbn zeta. by rewrite wrap_to_signed. Qed.

Lemma getConstScalar_reencode_witness :
  ∃ v, getConstScalar int64_t (IntConstant 8 false [200]) false = Ok v ∧ wrap 8 v = 200.
Proof.
  refine (getConstScalar_reencode 8 200 false _ _).
  - apply list_elem_of_here.
  - cbn. lia.
Defined.

(** X2: for an integral target type that is no wider than an unsigned
    constant of 8, 16, 32 or 64 bits, the unsigned-interpretation flag makes
    no difference to the decoded value. *)
Theorem getConstScalar_flag_narrow_target (wT : Z) (signed : bool) (w : Z) words :
  w ∈ [8; 16; 32; 64] →
  0 < wT ≤ w →
  getConstScalar (integral wT signed) (IntConstant w false words) true
  = getConstScalar (integral wT signed) (IntConstant w false words) false.
Proof.
  intros Hw HwT.
  assert (Hconv : ∀ v, from_integer (integral wT signed) (to_signed w v)
                       = from_integer (integral wT signed) v).
  { intros v. cbn. destruct signed.
    - apply to_signed_to_signed. lia.
    - apply wrap_to_signed. lia. }
  rewrite !elem_of_cons, elem_of_nil in Hw.
  destruct Hw as [->|[->|[->|[->|[]]]]];
    cbn [getConstScalar Z.eqb Pos.eqb];
    destruct (GetZeroExtendedValue _); cbn [mbind outcome_mbind outcome_bind];
    try done; by rewrite Hconv.
Qed.

Lemma getConstScalar_flag_narrow_target_witness :
  getConstScalar uint32_t (IntConstant 32 false [4000000000]) true
  = getConstScalar uint32_t (IntConstant 32 false [4000000000]) false.
Proof.
  refine (getConstScalar_flag_narrow_target 32 false 32 [4000000000] _ _).
  - do 2 apply list_elem_of_further. apply list_elem_of_here.
  - lia.
Defined.

Lemma to_signed_small (w v : Z) :
  0 < w → - 2 ^ (w - 1) ≤ v < 2 ^ (w - 1) → to_signed w v = v.
Proof.
  intros Hw Hv. pose proof (pow2_half w Hw) as Hp. unfold to_signed, wrap. cbn zeta.
  destruct (Z.neg_nonneg_cases v) as [Hneg|Hpos].
  - rewrite <- (Z.mod_add v 1 (2 ^ w)), Z.mod_small by lia.
    destruct (Z.ltb_spec (v + 1 * 2 ^ w) (2 ^ (w - 1))); lia.
  - rewrite Z.mod_small by lia.
    destruct (Z.ltb_spec v (2 ^ (w - 1))); lia.
Qed.

(** X20: a signed constant of at most 32 bits declared with the literal
    word that encodes the value v (v modulo 2^32, the sign-extended literal)
    decodes at [int64_t] to v, with or without the flag. *)
Theorem getConstScalar_signed_round_trip (w v : Z) (isUnsigned : bool) :
  0 < w ≤ 32 →
  - 2 ^ (w - 1) ≤ v < 2 ^ (w - 1) →
  getConstScalar int64_t (IntConstant w true [wrap 32 v]) isUnsigned = Ok v.
Proof.
  intros Hw Hv.
  assert (H31 : 2 ^ (w - 1) ≤ 2 ^ 31) by (apply Z.pow_le_mono_r; lia).
  assert (H63 : 2 ^ 31 ≤ 2 ^ 63) by (apply Z.pow_le_mono_r; lia).
  rewrite getConstScalar_signed. cbn [GetSignExtendedValue].
  rewrite (proj2 (Z.leb_le w 32)) by lia.
  unfold GetU32BitValue, word. cbn [lookup list_lookup deref fmap outcome_fmap outcome_bind].
  f_equal. cbn [from_integer int64_t integral].
  replace (wrap 32 (wrap 32 v)) with (wrap 32 v) by (unfold wrap; by rewrite Z.mod_mod).
  assert (H32 : to_signed 32 (wrap 32 v) = v).
  { rewrite <- (to_signed_small 32 v) at 2 by (change (32 - 1) with 31; lia).
    unfold to_signed. cbn zeta. unfold wrap. by rewrite Z.mod_mod. }
  rewrite H32. apply to_signed_small; [lia|]. change (64 - 1) with 63. lia.
Qed.

Lemma getConstScalar_signed_round_trip_witness :
  getConstScalar int64_t (IntConstant 16 true [wrap 32 (-300)]) false = Ok (-300).
Proof.
  refine (getConstScalar_signed_round_trip 16 (-300) false _ _).
  - lia.
  - cbn. lia.
Defined.

(** ** Flattening *)

(** Induction on constants, with the property available for the components
    of a composite. *)
Lemma Constant_nested_ind (P : Constant → Prop) :
  (∀ w s words, P (IntConstant w s words)) →
  (∀ w words, P (FloatConstant w words)) →
  (∀ b, P (BoolConstant b)) →
  (∀ ty components, Forall P components → P (CompositeConstant ty components)) →
  (∀ ty, P (NullConstant ty)) →
  ∀ c, P c.
Proof.
  intros Hint Hfloat Hbool Hcomp Hnull.
  fix IH 1. intros c. destruct c as [w s words|w words|b|ty components|ty].
  - apply Hint.
  - apply Hfloat.
  - apply Hbool.
  - apply Hcomp. induction components as [|c cs IHcs]; constructor.
    + apply IH.
    + exact IHcs.
  - apply Hnull.
Qed.

Lemma decodeAll_app {T : Type} (A : Arithmetic T) (l1 l2 : list Constant) :
  decodeAll A (l1 ++ l2)
  = vs1 ← decodeAll A l1; vs2 ← decodeAll A l2; Ok (vs1 ++ vs2).
Proof.
  induction l1 as [|c l1 IH]; cbn [decodeAll app].
  - cbn. by destruct (decodeAll A l2).
  - destruct (getConstScalar A c false); cbn; try done.
    rewrite IH. destruct (decodeAll A l1); cbn; try done.
    by destruct (decodeAll A l2).
Qed.

Lemma getFlattenedCompositeConstant_cons {T : Type} (A : Arithmetic T) ty c rest kernel :
  getFlattenedCompositeConstant A (CompositeConstant ty (c :: rest)) kernel
  = kernel' ← match c with
              | CompositeConstant _ _ => getFlattenedCompositeConstant A c kernel
              | _ => v ← getConstScalar A c false; Ok (kernel ++ [v])
              end;
    getFlattenedCompositeConstant A (CompositeConstant ty rest) kernel'.
Proof. reflexivity. Qed.

Lemma leaves_cons ty c rest :
  leaves (CompositeConstant ty (c :: rest)) = leaves c ++ leaves (CompositeConstant ty rest).
Proof. reflexivity. Qed.

Lemma decodeAll_scalar {T : Type} (A : Arithmetic T) c :
  decodeAll A [c] = v ← getConstScalar A c false; Ok [v].
Proof. cbn. by destruct (getConstScalar A c false). Qed.

Lemma getFlattenedCompositeConstant_all {T : Type} (A : Arithmetic T) c :
  match c with
  | CompositeConstant _ _ =>
      ∀ kernel,
        getFlattenedCompositeConstant A c kernel
        = vs ← decodeAll A (leaves c); Ok (kernel ++ vs)
  | _ => True
  end.
Proof.
  induction c as [| | |ty cs IH|] using Constant_nested_ind; try done.
  induction IH as [|c rest Hc Hrest IHrest]; intros kernel.
  - cbn. by rewrite app_nil_r.
  - rewrite getFlattenedCompositeConstant_cons, leaves_cons, decodeAll_app.
    assert (Hhead :
      match c with
      | CompositeConstant _ _ => getFlattenedCompositeConstant A c kernel
      | _ => v ← getConstScalar A c false; Ok (kernel ++ [v])
      end = vs ← decodeAll A (leaves c); Ok (kernel ++ vs)).
    { destruct c as [w s words|w words|b|ty' cs'|ty']; try apply Hc;
        change (leaves ?c) with [c]; rewrite decodeAll_scalar;
        by destruct (getConstScalar A _ false). }
    rewrite Hhead. destruct (decodeAll A (leaves c)) as [vs1| | |];
      cbn [mbind outcome_mbind outcome_bind]; try done.
    rewrite IHrest. destruct (decodeAll A (leaves (CompositeConstant ty rest)));
      cbn [mbind outcome_mbind outcome_bind]; try done.
    by rewrite app_assoc.
Qed.

(** X4: flattening a composite constant appends to the vector it is given
    the decoded scalar constants of the composite, nested composites
    included, depth first and left to right; it fails as the first of them
    that cannot be decoded fails. *)
Theorem getFlattenedCompositeConstant_leaves {T : Type} (A : Arithmetic T)
    ty components kernel :
  getFlattenedCompositeConstant A (CompositeConstant ty components) kernel
  = vs ← decodeAll A (leaves (CompositeConstant ty components)); Ok (kernel ++ vs).
Proof. apply (getFlattenedCompositeConstant_all A (CompositeConstant ty components)). Qed.

(** ** The vector decoder *)

Lemma getFlattenedCompositeConstant_all_nil {T : Type} (A : Arithmetic T) ty components :
  getFlattenedCompositeConstant A (CompositeConstant ty components) []
  = decodeAll A (leaves (CompositeConstant ty components)).
Proof.
  rewrite (getFlattenedCompositeConstant_all A (CompositeConstant ty components) []).
  by destruct (decodeAll A _).
Qed.

Lemma getConstVector_null_witness :
  getConstVector large_module 2 Z int8_t 6 = Some (Throw length_error).
Proof.
  refine (getConstVector_null large_module 1 Z int8_t 6
            (TensorARM_type (Integer 8 true) 11 5)
            {| element_type := Integer 8 true; rank_id := 11; shape_id := 5 |}
            (-56) (2 ^ 64 - 56) eq_refl eq_refl eq_refl eq_refl).
Defined.

(** X7: a null constant whose tensor type names the constant itself as its
    shape is never decoded: the decoder calls itself on the same id without
    end, so no recursion budget is enough. *)
Theorem getConstVector_cyclic_shape ctx T (A : Arithmetic T) id element rank :
  FindDeclaredConstant ctx !! id = Some (NullConstant (TensorARM_type element rank id)) →
  ∀ fuel, getConstVector ctx fuel T A id = None.
Proof.
  intros Hc fuel. induction fuel as [|fuel IH]; [done|].
  cbn [getConstVector]. unfold getConstVector_body.
  rewrite Hc. cbn [deref run_bind AsTensorARM shape_id]. by rewrite IH.
Qed.

Lemma getConstVector_cyclic_shape_witness :
  getConstVector cyclic_module 1000 Z int64_t 1 = None.
Proof.
  exact (getConstVector_cyclic_shape cyclic_module Z int64_t 1 (Integer 32 false) 10
           eq_refl 1000%nat).
Defined.

(** X8: a composite constant that is not defined by a replicate opcode
    decodes to its scalar constants, depth first and left to right, with any
    recursion budget and without the type resolver being consulted. *)
Theorem getConstVector_composite ctx fuel T (A : Arithmetic T) id ty components instruction :
  FindDeclaredConstant ctx !! id = Some (CompositeConstant ty components) →
  GetDef ctx !! id = Some instruction →
  instruction ∉ [OpConstantCompositeReplicateEXT; OpSpecConstantCompositeReplicateEXT] →
  getConstVector ctx (S fuel) T A id
  = Some (decodeAll A (leaves (CompositeConstant ty components))).
Proof.
  intros Hc Hdef Hop.
  cbn [getConstVector]. unfold getConstVector_body.
  rewrite Hc; cbn [deref run_bind]. rewrite Hdef; cbn [deref run_bind].
  rewrite getFlattenedCompositeConstant_all_nil.
  rewrite !elem_of_cons, elem_of_nil in Hop.
  destruct (decodeAll A (leaves (CompositeConstant ty components))); cbn [run_bind]; try done.
  destruct instruction; try done; exfalso; apply Hop; auto.
Qed.

Lemma getConstVector_composite_witness :
  getConstVector example_module 5 Z int64_t 1 = Some (Ok [2; 3]).
Proof.
  refine (getConstVector_composite example_module 4 Z int64_t 1 (OtherType 0)
            [IntConstant 32 false [2]; IntConstant 32 false [3]]
            OpConstantComposite eq_refl eq_refl _).
  rewrite !elem_of_cons, elem_of_nil. intros [H|[H|[]]]; discriminate H.
Defined.

(** ** Descriptor-set-layout bindings *)

Lemma substitutedBinding_no_tensor b : hasTensor (substitutedBinding b) = false.
Proof.
  unfold substitutedBinding. destruct (hasTensor b) eqn:Hb; [|done].
  by apply bool_decide_eq_false_2.
Qed.

Lemma appendedBindings_no_tensor cfg bindings :
  Forall (λ b, hasTensor b = false) (appendedBindings cfg bindings).
Proof.
  unfold appendedBindings. destruct (EXPERIMENTAL_MOLTEN_VK_SUPPORT cfg); [|constructor].
  apply Forall_fmap, Forall_forall. intros b _. by apply bool_decide_eq_false_2.
Qed.

Lemma appendedBindings_length cfg bindings :
  length (appendedBindings cfg bindings)
  = if EXPERIMENTAL_MOLTEN_VK_SUPPORT cfg
    then length (filter (λ b, hasTensor b = true) bindings) else 0%nat.
Proof.
  unfold appendedBindings. destruct (EXPERIMENTAL_MOLTEN_VK_SUPPORT cfg); [|done].
  apply length_fmap.
Qed.

(** X9: the returned vector holds no tensor binding, and it has one entry
    for each incoming binding, plus, in the experimental build, one for each
    incoming tensor binding. *)
Theorem substituteTensorBinding_no_tensor_left cfg h pBindings bindings bindingInfo supplied :
  h !! pBindings = Some (BindingArray bindings) →
  flagsArgument h (length bindings) bindingInfo supplied →
  ∃ out h',
    substituteTensorBinding cfg (length bindings) pBindings bindingInfo h = Ok (out, h')
    ∧ Forall (λ b, hasTensor b = false) out
    ∧ length out
      = (length bindings
         + if EXPERIMENTAL_MOLTEN_VK_SUPPORT cfg
           then length (filter (λ b, hasTensor b = true) bindings) else 0)%nat.
Proof.
  intros Hb Hf. eexists _, _. split; [by apply substituteTensorBinding_result|]. split.
  - apply Forall_app. split; [|apply appendedBindings_no_tensor].
    apply Forall_fmap, Forall_forall. intros b _. apply substitutedBinding_no_tensor.
  - by rewrite length_app, length_fmap, appendedBindings_length.
Qed.

Lemma substituteTensorBinding_no_tensor_left_witness :
  ∃ out h',
    substituteTensorBinding (experimental_build 16) 4 1%positive (Some 2%positive)
      example_heap = Ok (out, h')
    ∧ Forall (λ b, hasTensor b = false) out
    ∧ length out = 5%nat.
Proof.
  assert (Hflags : flagsArgument example_heap (length example_bindings)
                     (Some 2%positive) (Some (3%positive, example_flags))).
  { eapply flags_supplied; [reflexivity..|]. cbn. lia. }
  exact (substituteTensorBinding_no_tensor_left (experimental_build 16) example_heap
           1%positive example_bindings (Some 2%positive)
           (Some (3%positive, example_flags)) eq_refl Hflags).
Defined.

(** X10: in the experimental build the storage-buffer bindings come after
    all the incoming bindings, in the order of the tensor bindings they
    belong to: the one of the k-th tensor binding has its binding number
    plus the offset (a [uint32_t] sum), its descriptor count and stage flags,
    and no immutable samplers. *)
Theorem substituteTensorBinding_appended cfg h pBindings bindings bindingInfo supplied :
  h !! pBindings = Some (BindingArray bindings) →
  flagsArgument h (length bindings) bindingInfo supplied →
  EXPERIMENTAL_MOLTEN_VK_SUPPORT cfg = true →
  ∃ out h',
    substituteTensorBinding cfg (length bindings) pBindings bindingInfo h = Ok (out, h')
    ∧ ∀ k b,
        filter (λ b, hasTensor b = true) bindings !! k = Some b →
        out !! (length bindings + k)%nat
        = Some (VkDescriptorSetLayoutBinding.mk
                  (add32 (VkDescriptorSetLayoutBinding.binding b)
                         (EXPERIMENTAL_MVK_BUFFER_BINDING_OFFSET cfg))
                  VK_DESCRIPTOR_TYPE_STORAGE_BUFFER
                  (VkDescriptorSetLayoutBinding.descriptorCount b)
                  (VkDescriptorSetLayoutBinding.stageFlags b)
                  nullptr).
Proof.
  intros Hb Hf Hexp. eexists _, _. split; [by apply substituteTensorBinding_result|].
  intros k b Hk. rewrite lookup_app_r by (rewrite length_fmap; lia).
  rewrite length_fmap. replace (length bindings + k - length bindings)%nat with k by lia.
  unfold appendedBindings. rewrite Hexp, list_lookup_fmap, Hk. done.
Qed.

Lemma substituteTensorBinding_appended_witness :
  ∃ out h',
    substituteTensorBinding (experimental_build 16) 4 1%positive (Some 2%positive)
      example_heap = Ok (out, h')
    ∧ out !! 4%nat
      = Some (VkDescriptorSetLayoutBinding.mk 18 VK_DESCRIPTOR_TYPE_STORAGE_BUFFER 1 32 nullptr).
Proof.
  assert (Hflags : flagsArgument example_heap (length example_bindings)
                     (Some 2%positive) (Some (3%positive, example_flags))).
  { eapply flags_supplied; [reflexivity..|]. cbn. lia. }
  destruct (substituteTensorBinding_appended (experimental_build 16) example_heap
              1%positive example_bindings (Some 2%positive)
              (Some (3%positive, example_flags)) eq_refl Hflags eq_refl)
    as (out & h' & Hcall & Hout).
  exists out, h'. split; [exact Hcall|]. exact (Hout 0%nat _ eq_refl).
Defined.

Lemma substituteTensorBinding_body_skip cfg h pBindings bindings bindingInfo vec i b :
  h !! pBindings = Some (BindingArray bindings) →
  bindings !! i = Some b →
  hasTensor b = false →
  substituteTensorBinding_body cfg pBindings bindingInfo (vec, h) i = Ok (vec, h).
Proof.
  intros Hb Hi Hnt. unfold substituteTensorBinding_body.
  rewrite (load_binding_at h pBindings bindings Hb i b Hi).
  cbn [mbind outcome_mbind outcome_bind]. by rewrite Hnt.
Qed.

Lemma substituteTensorBinding_body_null cfg h pBindings bindings bindingInfo info vec i b :
  h !! pBindings = Some (BindingArray bindings) →
  bindings !! i = Some b →
  hasTensor b = true →
  h !! bindingInfo = Some (BindingFlagsCreateInfo info) →
  VkDescriptorSetLayoutBindingFlagsCreateInfo.pBindingFlags info = None →
  substituteTensorBinding_body cfg pBindings (Some bindingInfo) (vec, h) i = Undefined.
Proof.
  intros Hb Hi Ht Hinfo Hnull. unfold substituteTensorBinding_body.
  rewrite (load_binding_at h pBindings bindings Hb i b Hi).
  cbn [mbind outcome_mbind outcome_bind]. rewrite Ht.
  unfold store_cleared_flag. by rewrite Hinfo, Hnull.
Qed.

(** The iterations over bindings that are not tensors change nothing and do
    not look at [bindingInfo]. *)
Lemma substituteTensorBinding_skip cfg h pBindings bindings bindingInfo todo :
  h !! pBindings = Some (BindingArray bindings) →
  ∀ seen rest vec,
    bindings = seen ++ todo ++ rest →
    Forall (λ b, hasTensor b = false) todo →
    foldM (substituteTensorBinding_body cfg pBindings bindingInfo) (vec, h)
          (seq (length seen) (length todo))
    = Ok (vec, h).
Proof.
  intros Hb. induction todo as [|b todo IH]; intros seen rest vec Heq Hall;
    cbn [length seq foldM]; [done|].
  apply Forall_cons in Hall as [Hnt Hall].
  rewrite (substituteTensorBinding_body_skip cfg h pBindings bindings bindingInfo vec
             (length seen) b Hb) by (done || rewrite Heq; by apply list_lookup_middle).
  cbn [mbind outcome_mbind outcome_bind].
  specialize (IH (seen ++ [b]) rest vec). rewrite length_app, Nat.add_1_r in IH.
  apply IH; [|done]. by rewrite <- app_assoc.
Qed.

(** X11: when no incoming binding is a tensor binding, the call returns the
    bindings as they are and leaves the caller's memory as it is, whatever
    [bindingInfo] is: the pointer is not followed. *)
Theorem substituteTensorBinding_without_tensor cfg h pBindings bindings bindingInfo :
  h !! pBindings = Some (BindingArray bindings) →
  Forall (λ b, hasTensor b = false) bindings →
  substituteTensorBinding cfg (length bindings) pBindings bindingInfo h = Ok (bindings, h).
Proof.
  intros Hb Hall. unfold substituteTensorBinding.
  rewrite (load_bindings_all h pBindings bindings Hb).
  cbn [mbind outcome_mbind outcome_bind].
  apply (substituteTensorBinding_skip cfg h pBindings bindings bindingInfo bindings Hb [] []);
    [|done]. by rewrite app_nil_r.
Qed.

Lemma substituteTensorBinding_without_tensor_witness :
  substituteTensorBinding default_build 2 1%positive (Some 77%positive)
    {[ 1%positive := BindingArray (take 2 example_bindings) ]}
  = Ok (take 2 example_bindings, {[ 1%positive := BindingArray (take 2 example_bindings) ]}).
Proof.
  refine (substituteTensorBinding_without_tensor default_build
            {[ 1%positive := BindingArray (take 2 example_bindings) ]}
            1%positive (take 2 example_bindings) (Some 77%positive) eq_refl _).
  repeat constructor.
Defined.

(** X12: when [bindingInfo] is supplied with a null [pBindingFlags] and
    some incoming binding is a tensor binding, the call dereferences the null
    pointer: its behaviour is undefined. *)
Theorem substituteTensorBinding_null_flags cfg h pBindings bindingInfo info before b after :
  h !! pBindings = Some (BindingArray (before ++ b :: after)) →
  Forall (λ b, hasTensor b = false) before →
  hasTensor b = true →
  h !! bindingInfo = Some (BindingFlagsCreateInfo info) →
  VkDescriptorSetLayoutBindingFlagsCreateInfo.pBindingFlags info = None →
  substituteTensorBinding cfg (length (before ++ b :: after)) pBindings (Some bindingInfo) h
  = Undefined.
Proof.
  intros Hb Hbefore Ht Hinfo Hnull. unfold substituteTensorBinding.
  rewrite (load_bindings_all h pBindings _ Hb).
  cbn [mbind outcome_mbind outcome_bind].
  rewrite length_app, seq_app, foldM_app.
  rewrite (substituteTensorBinding_skip cfg h pBindings _ (Some bindingInfo) before Hb
             [] (b :: after) _ eq_refl Hbefore).
  cbn [mbind outcome_mbind outcome_bind length seq foldM Nat.add].
  rewrite (substituteTensorBinding_body_null cfg h pBindings _ bindingInfo info _
             (length before) b Hb) by (done || by apply list_lookup_middle).
  done.
Qed.

Lemma substituteTensorBinding_null_flags_witness :
  substituteTensorBinding default_build 4 1%positive (Some 2%positive)
    (<[2%positive := BindingFlagsCreateInfo
                       (VkDescriptorSetLayoutBindingFlagsCreateInfo.mk 0 None)]> example_heap)
  = Undefined.
Proof.
  refine (substituteTensorBinding_null_flags default_build
            (<[2%positive := BindingFlagsCreateInfo
                 (VkDescriptorSetLayoutBindingFlagsCreateInfo.mk 0 None)]> example_heap)
            1%positive 2%positive
            (VkDescriptorSetLayoutBindingFlagsCreateInfo.mk 0 None)
            (take 2 example_bindings)
            (VkDescriptorSetLayoutBinding.mk 2 VK_DESCRIPTOR_TYPE_TENSOR_ARM 1 32 nullptr)
            (drop 3 example_bindings) eq_refl _ eq_refl eq_refl eq_refl).
  repeat constructor.
Defined.

(** ** Descriptor-set writes *)

(** A property that every successful iteration keeps holds after the loop. *)
Lemma foldM_preserves {S A : Type} (body : S → A → outcome S)
    (I : S → Prop) (P : A → Prop) :
  (∀ s a s', I s → P a → body s a = Ok s' → I s') →
  ∀ l s s', I s → Forall P l → foldM body s l = Ok s' → I s'.
Proof.
  intros Hstep. induction l as [|a l IH]; intros s s' Hs Hl; cbn [foldM].
  - by intros [= <-].
  - apply Forall_cons in Hl as [Ha Hl].
    destruct (body s a) as [s1| | |] eqn:E; cbn; try done.
    apply IH; [|done]. by eapply Hstep.
Qed.

(** A measure that every successful iteration raises by the cost of its
    element is raised by the loop by the sum of the costs. *)
Lemma foldM_measure {S A : Type} (body : S → A → outcome S)
    (m : S → nat) (cost : A → nat) :
  (∀ s a s', body s a = Ok s' → m s' = (m s + cost a)%nat) →
  ∀ l s s', foldM body s l = Ok s' → m s' = (m s + sum_list (cost <$> l))%nat.
Proof.
  intros Hstep. induction l as [|a l IH]; intros s s'; cbn [foldM fmap list_fmap sum_list].
  - intros [= <-]. lia.
  - destruct (body s a) as [s1| | |] eqn:E; cbn [mbind outcome_mbind outcome_bind]; try done.
    intros H. rewrite (IH _ _ H), (Hstep _ _ _ E). cbn. lia.
Qed.

Section more_writes.
Context (cfg : BuildConfig) {Device : Type}.
Context (getDescriptorBuffer : handle → Device → handle).
Context (getTensorBuffer : handle → handle).
Context (dev : Device).

(** The three ways an iteration succeeds. *)
Lemma rewriteWrite_Ok st write st' :
  rewriteWrite cfg getDescriptorBuffer getTensorBuffer dev st write = Ok st' →
  (hasTensor write = true
   ∧ ∃ tensorInfo,
       findType (VkWriteDescriptorSet.pNext write) = Some tensorInfo
       ∧ st' = {| writes :=
                    writes st ++ emittedWrites cfg write (length (bufferInfos st)) 0
                                   (VkWriteDescriptorSetTensorARM.pTensorViews tensorInfo);
                  bufferInfos :=
                    bufferInfos st
                      ++ emittedInfos cfg getDescriptorBuffer getTensorBuffer dev
                           (VkWriteDescriptorSetTensorARM.pTensorViews tensorInfo);
                  imageInfos := imageInfos st |})
  ∨ (ordinaryWrite write
     ∧ st' = {| writes := writes st ++ [write];
                bufferInfos := bufferInfos st;
                imageInfos := imageInfos st |})
  ∨ (hasTensor write = false
     ∧ ∃ info rest,
         VkWriteDescriptorSet.pImageInfo write = caller_array (info :: rest)
         ∧ VkDescriptorImageInfo.imageLayout info = VK_IMAGE_LAYOUT_TENSOR_ALIASING_ARM
         ∧ st' = {| writes :=
                      writes st
                        ++ [VkWriteDescriptorSet.set_pImageInfo
                              (list_node (length (imageInfos st))) write];
                    bufferInfos := bufferInfos st;
                    imageInfos :=
                      imageInfos st
                        ++ [VkDescriptorImageInfo.mk (VkDescriptorImageInfo.sampler info)
                              (VkDescriptorImageInfo.imageView info)
                              VK_IMAGE_LAYOUT_GENERAL] |}).
Proof.
  destruct (hasTensor write) eqn:Ht.
  - destruct (findType (VkWriteDescriptorSet.pNext write)) as [tensorInfo|] eqn:Hinfo.
    + rewrite (rewriteWrite_tensor _ _ _ _ _ _ _ Ht Hinfo). intros [= <-]. left. eauto.
    + by rewrite (rewriteWrite_missing _ _ _ _ _ _ Ht Hinfo).
  - destruct (VkWriteDescriptorSet.pImageInfo write) as [|[|info rest]|] eqn:Hp.
    + rewrite rewriteWrite_passthrough by (done || by rewrite Hp).
      intros [= <-]. right. left. split; [|done]. split; [done|by rewrite Hp].
    + unfold rewriteWrite. by rewrite Ht, Hp.
    + destruct (decide (VkDescriptorImageInfo.imageLayout info
                        = VK_IMAGE_LAYOUT_TENSOR_ALIASING_ARM)) as [Hl|Hl].
      * rewrite (rewriteWrite_aliasing _ _ _ _ _ _ _ _ Ht Hp Hl).
        intros [= <-]. right. right. split; [done|]. eauto.
      * rewrite rewriteWrite_passthrough by (done || by rewrite Hp).
        intros [= <-]. right. left. split; [|done]. split; [done|by rewrite Hp].
    + unfold rewriteWrite. by rewrite Ht, Hp.
Qed.

Lemma rewriteWrite_loop_ordinary pDescriptorWrites :
  Forall ordinaryWrite pDescriptorWrites →
  ∀ st,
    foldM (rewriteWrite cfg getDescriptorBuffer getTensorBuffer dev) st pDescriptorWrites
    = Ok {| writes := writes st ++ pDescriptorWrites;
            bufferInfos := bufferInfos st;
            imageInfos := imageInfos st |}.
Proof.
  induction 1 as [|write l [Ht Hp] Hl IH]; intros st; cbn [foldM].
  - rewrite app_nil_r. by destruct st.
  - rewrite (rewriteWrite_passthrough _ _ _ _ _ _ Ht Hp).
    cbn [mbind outcome_mbind outcome_bind]. rewrite IH. cbn [writes bufferInfos imageInfos].
    by rewrite <- app_assoc.
Qed.

(** X13: a call whose incoming writes are all ordinary (none is a tensor
    write and none has a first image-info record in the tensor-aliasing
    layout) returns the incoming writes as they are, in order, with no
    buffer-info and no image-info record. *)
Theorem substituteTensorWriteDescriptorSet_ordinary pDescriptorWrites :
  Forall ordinaryWrite pDescriptorWrites →
  substituteTensorWriteDescriptorSet cfg getDescriptorBuffer getTensorBuffer dev
    pDescriptorWrites
  = Ok {| writes := pDescriptorWrites; bufferInfos := []; imageInfos := [] |}.
Proof.
  intros Hall. unfold substituteTensorWriteDescriptorSet.
  by rewrite (rewriteWrite_loop_ordinary _ Hall).
Qed.

(** X14: when the call succeeds, the numbers of returned writes, of
    buffer-info records and of image-info records are the sums over the
    incoming writes: a tensor write of N views counts for N writes and N
    buffer-info records (2N each in the experimental build), any other write
    for one write, and for one image-info record when its first image-info
    record is in the tensor-aliasing layout. *)
Theorem substituteTensorWriteDescriptorSet_counts pDescriptorWrites st :
  substituteTensorWriteDescriptorSet cfg getDescriptorBuffer getTensorBuffer dev
    pDescriptorWrites = Ok st →
  length (writes st) = sum_list (writesFor cfg <$> pDescriptorWrites)
  ∧ length (bufferInfos st) = sum_list (bufferInfosFor cfg <$> pDescriptorWrites)
  ∧ length (imageInfos st) = sum_list (imageInfosFor <$> pDescriptorWrites).
Proof.
  intros Hcall. unfold substituteTensorWriteDescriptorSet in Hcall.
  assert (Hstep : ∀ s a s',
            rewriteWrite cfg getDescriptorBuffer getTensorBuffer dev s a = Ok s' →
            length (writes s') = (length (writes s) + writesFor cfg a)%nat
            ∧ length (bufferInfos s') = (length (bufferInfos s) + bufferInfosFor cfg a)%nat
            ∧ length (imageInfos s') = (length (imageInfos s) + imageInfosFor a)%nat).
  { intros s a s' Hs. unfold bufferInfosFor, writesFor, imageInfosFor.
    apply rewriteWrite_Ok in Hs
      as [(Ht & ti & Hti & ->)|[([Ht Hp] & ->)|(Ht & info & rest & Hp & Hl & ->)]];
      rewrite Ht; cbn [writes bufferInfos imageInfos]; rewrite ?length_app.
    - rewrite Hti, emittedWrites_length, emittedInfos_length.
      unfold VkWriteDescriptorSetTensorARM.tensorViewCount. lia.
    - cbn [length]. destruct (VkWriteDescriptorSet.pImageInfo a) as [|[|info rest]|];
        try done; rewrite ?bool_decide_eq_false_2 by done; lia.
    - rewrite Hp, bool_decide_eq_true_2 by done. cbn [length]. lia. }
  repeat split.
  - apply (foldM_measure _ (λ s, length (writes s)) (writesFor cfg)
             (λ s a s' H, proj1 (Hstep s a s' H)) _ _ _ Hcall).
  - apply (foldM_measure _ (λ s, length (bufferInfos s)) (bufferInfosFor cfg)
             (λ s a s' H, proj1 (proj2 (Hstep s a s' H))) _ _ _ Hcall).
  - apply (foldM_measure _ (λ s, length (imageInfos s)) imageInfosFor
             (λ s a s' H, proj2 (proj2 (Hstep s a s' H))) _ _ _ Hcall).
Qed.
Lemma emittedWrites_bufferNodes write views :
  ∀ node j,
    omap bufferNode (emittedWrites cfg write node j views)
    = seq node (perView cfg * length views).
Proof.
  unfold perView. induction views as [|view views IH]; intros node j;
    cbn [emittedWrites length].
  - by rewrite Nat.mul_0_r.
  - destruct (EXPERIMENTAL_MOLTEN_VK_SUPPORT cfg) eqn:Hexp.
    + replace (2 * S (length views))%nat with (S (S (2 * length views))) by lia.
      cbn [seq]. rewrite <- (IH (S (S node)) (S j)). reflexivity.
    + replace (1 * S (length views))%nat with (S (1 * length views)) by lia.
      cbn [seq]. rewrite <- (IH (S node) (S j)). reflexivity.
Qed.

Lemma emittedWrites_imageNodes write views :
  ∀ node j, omap imageNode (emittedWrites cfg write node j views) = [].
Proof.
  induction views as [|view views IH]; intros node j; cbn [emittedWrites]; [done|].
  destruct (EXPERIMENTAL_MOLTEN_VK_SUPPORT cfg); cbn; apply IH.
Qed.

Lemma emittedWrites_no_tensor write views :
  ∀ node j, Forall (λ w, hasTensor w = false) (emittedWrites cfg write node j views).
Proof.
  induction views as [|view views IH]; intros node j; cbn [emittedWrites]; [constructor|].
  destruct (EXPERIMENTAL_MOLTEN_VK_SUPPORT cfg); repeat constructor; apply IH.
Qed.

(** X15: when the incoming writes hold the caller's pointers only and the
    call succeeds, the list nodes that the returned writes address are, in
    the order of the writes, exactly the nodes of the returned buffer-info
    list, and likewise for the image-info list: every record is addressed by
    one write and no write addresses a missing record. *)
Theorem substituteTensorWriteDescriptorSet_nodes pDescriptorWrites st :
  Forall callerPointers pDescriptorWrites →
  substituteTensorWriteDescriptorSet cfg getDescriptorBuffer getTensorBuffer dev
    pDescriptorWrites = Ok st →
  omap bufferNode (writes st) = seq 0 (length (bufferInfos st))
  ∧ omap imageNode (writes st) = seq 0 (length (imageInfos st)).
Proof.
  intros Hall Hcall. unfold substituteTensorWriteDescriptorSet in Hcall.
  refine (foldM_preserves _
            (λ s, omap bufferNode (writes s) = seq 0 (length (bufferInfos s))
                  ∧ omap imageNode (writes s) = seq 0 (length (imageInfos s)))
            callerPointers _ _ _ _ _ Hall Hcall); [|done].
  intros s a s' [Hb Hi] [Hab Hai] Hs.
  apply rewriteWrite_Ok in Hs
    as [(Ht & ti & Hti & ->)|[([Ht Hp] & ->)|(Ht & info & rest & Hp & Hl & ->)]];
    cbn [writes bufferInfos imageInfos]; rewrite !omap_app, ?length_app.
  - rewrite emittedWrites_bufferNodes, emittedWrites_imageNodes, emittedInfos_length.
    rewrite seq_app, Hb, Hi, app_nil_r. done.
  - cbn. rewrite Hab, Hai, !app_nil_r. done.
  - cbn [omap list_omap]. unfold bufferNode at 2, imageNode at 2.
    cbn [VkWriteDescriptorSet.set_pImageInfo VkWriteDescriptorSet.pBufferInfo
         VkWriteDescriptorSet.pImageInfo length].
    fold (bufferNode a). rewrite Hab, app_nil_r, seq_app, Hb, Hi. done.
Qed.

(** X16: no returned write is a tensor write. *)
Theorem substituteTensorWriteDescriptorSet_no_tensor_left pDescriptorWrites st :
  substituteTensorWriteDescriptorSet cfg getDescriptorBuffer getTensorBuffer dev
    pDescriptorWrites = Ok st →
  Forall (λ w, hasTensor w = false) (writes st).
Proof.
  intros Hcall. unfold substituteTensorWriteDescriptorSet in Hcall.
  refine (foldM_preserves _ (λ s, Forall (λ w, hasTensor w = false) (writes s))
            (λ _, True) _ _ _ _ _ _ Hcall).
  - intros s a s' Hs _ Ha.
    apply rewriteWrite_Ok in Ha
      as [(Ht & ti & Hti & ->)|[([Ht Hp] & ->)|(Ht & info & rest & Hp & Hl & ->)]];
      cbn [writes]; apply Forall_app; split; try done.
    + apply emittedWrites_no_tensor.
    + by repeat constructor.
    + by repeat constructor.
  - constructor.
  - apply Forall_forall. done.
Qed.
End more_writes.

Lemma substituteTensorWriteDescriptorSet_counts_witness :
  ∃ st,
    substituteTensorWriteDescriptorSet default_build
      example_getDescriptorBuffer example_getTensorBuffer ()
      [sampler_write; two_view_write; aliasing_pair_write] = Ok st
    ∧ length (writes st) = 4%nat
    ∧ length (bufferInfos st) = 2%nat
    ∧ length (imageInfos st) = 1%nat.
Proof.
  eexists. split; [reflexivity|].
  exact (substituteTensorWriteDescriptorSet_counts default_build
           example_getDescriptorBuffer example_getTensorBuffer ()
           [sampler_write; two_view_write; aliasing_pair_write] _ eq_refl).
Defined.

Lemma substituteTensorWriteDescriptorSet_ordinary_witness :
  substituteTensorWriteDescriptorSet default_build
    example_getDescriptorBuffer example_getTensorBuffer () [sampler_write; sampler_write]
  = Ok {| writes := [sampler_write; sampler_write]; bufferInfos := []; imageInfos := [] |}.
Proof.
  refine (substituteTensorWriteDescriptorSet_ordinary default_build
            example_getDescriptorBuffer example_getTensorBuffer ()
            [sampler_write; sampler_write] _).
  repeat constructor; cbn; discriminate.
Defined.

Lemma substituteTensorWriteDescriptorSet_nodes_witness :
  ∃ st,
    substituteTensorWriteDescriptorSet (experimental_build 16)
      example_getDescriptorBuffer example_getTensorBuffer ()
      [sampler_write; two_view_write; aliasing_pair_write] = Ok st
    ∧ omap bufferNode (writes st) = [0; 1; 2; 3]%nat
    ∧ omap imageNode (writes st) = [0]%nat.
Proof.
  eexists. split; [reflexivity|].
  refine (substituteTensorWriteDescriptorSet_nodes (experimental_build 16)
            example_getDescriptorBuffer example_getTensorBuffer ()
            [sampler_write; two_view_write; aliasing_pair_write] _ _ eq_refl).
  repeat constructor.
Defined.

Lemma substituteTensorWriteDescriptorSet_no_tensor_left_witness :
  ∃ st,
    substituteTensorWriteDescriptorSet default_build
      example_getDescriptorBuffer example_getTensorBuffer ()
      [sampler_write; two_view_write] = Ok st
    ∧ Forall (λ w, hasTensor w = false) (writes st).
Proof.
  eexists. split; [reflexivity|].
  exact (substituteTensorWriteDescriptorSet_no_tensor_left default_build
           example_getDescriptorBuffer example_getTensorBuffer ()
           [sampler_write; two_view_write] _ eq_refl).
Defined.

(** ** Descriptor-pool sizes *)

Lemma substituteTensorDescriptorPoolSizes_eq cfg poolSizes :
  substituteTensorDescriptorPoolSizes cfg poolSizes
  = if decide (tensor_total poolSizes = 0) then without_tensors poolSizes
    else if EXPERIMENTAL_MOLTEN_VK_SUPPORT cfg
         then spec_fold_into VK_DESCRIPTOR_TYPE_STORAGE_BUFFER (tensor_total poolSizes)
                (spec_fold_into VK_DESCRIPTOR_TYPE_UNIFORM_BUFFER (tensor_total poolSizes)
                   (without_tensors poolSizes))
         else spec_fold_into VK_DESCRIPTOR_TYPE_UNIFORM_BUFFER (tensor_total poolSizes)
                (without_tensors poolSizes).
Proof.
  unfold substituteTensorDescriptorPoolSizes.
  rewrite poolSizes_loop, app_nil_l. fold (tensor_total poolSizes).
  pose proof (tensor_total_nonneg poolSizes) as Hpos.
  case_decide as Hz.
  - by rewrite Hz.
  - assert (Hlt : (0 <? tensor_total poolSizes) = true) by (apply Z.ltb_lt; lia).
    by rewrite Hlt, !growPoolSize_spec.
Qed.

Lemma substituteTensorDescriptorPoolSizes_clean cfg poolSizes :
  Forall (λ p, hasTensor p = false) (substituteTensorDescriptorPoolSizes cfg poolSizes).
Proof.
  rewrite substituteTensorDescriptorPoolSizes_eq.
  pose proof (without_tensors_no_tensor poolSizes) as Hw.
  case_decide; [done|].
  destruct (EXPERIMENTAL_MOLTEN_VK_SUPPORT cfg);
    repeat (apply spec_fold_into_no_tensor; [done|]); done.
Qed.

Lemma substituteTensorDescriptorPoolSizes_id cfg poolSizes :
  Forall (λ p, hasTensor p = false) poolSizes →
  substituteTensorDescriptorPoolSizes cfg poolSizes = poolSizes.
Proof.
  intros Hall. rewrite substituteTensorDescriptorPoolSizes_eq.
  assert (Htensors : filter (λ p, hasTensor p = true) poolSizes = []).
  { induction Hall as [|p l Hp Hl IH]; [done|].
    rewrite filter_cons. case_decide; [congruence|done]. }
  assert (Hothers : without_tensors poolSizes = poolSizes).
  { unfold without_tensors. induction Hall as [|p l Hp Hl IH]; [done|].
    rewrite filter_cons. case_decide; [|done].
    f_equal. apply IH. rewrite filter_cons in Htensors.
    case_decide; [congruence|done]. }
  unfold tensor_total. rewrite Htensors. cbn. by rewrite Hothers.
Qed.

(** X17: the pool-size rewrite is idempotent: rewriting its own result
    changes nothing. *)
Theorem substituteTensorDescriptorPoolSizes_idempotent cfg poolSizes :
  substituteTensorDescriptorPoolSizes cfg (substituteTensorDescriptorPoolSizes cfg poolSizes)
  = substituteTensorDescriptorPoolSizes cfg poolSizes.
Proof.
  apply substituteTensorDescriptorPoolSizes_id, substituteTensorDescriptorPoolSizes_clean.
Qed.

Lemma wrap32_add_l (a b : Z) : wrap 32 (wrap 32 a + b) = wrap 32 (a + b).
Proof. unfold wrap. apply Zplus_mod_idemp_l. Qed.

Lemma wrap32_add_r (a b : Z) : wrap 32 (a + wrap 32 b) = wrap 32 (a + b).
Proof. unfold wrap. apply Zplus_mod_idemp_r. Qed.

Lemma fold_left_add32_sum (counts : list Z) (a : Z) :
  fold_left add32 counts (wrap 32 a) = wrap 32 (a + foldr Z.add 0 counts).
Proof.
  revert a. induction counts as [|c cs IH]; intros a; cbn [fold_left foldr].
  - by rewrite Z.add_0_r.
  - unfold add32 at 2. rewrite wrap32_add_l, IH. f_equal. lia.
Qed.

Lemma tensor_total_countOf poolSizes :
  tensor_total poolSizes = wrap 32 (countOf VK_DESCRIPTOR_TYPE_TENSOR_ARM poolSizes).
Proof.
  unfold tensor_total, countOf.
  assert (Hfilter : filter (λ p, hasTensor p = true) poolSizes
                    = filter (λ p, VkDescriptorPoolSize.type p = VK_DESCRIPTOR_TYPE_TENSOR_ARM)
                        poolSizes).
  { induction poolSizes as [|p l IH]; [done|]. rewrite !filter_cons, IH.
    destruct (decide (hasTensor p = true)) as [H1|H1],
             (decide (VkDescriptorPoolSize.type p = VK_DESCRIPTOR_TYPE_TENSOR_ARM))
               as [H2|H2]; try done; exfalso.
    all: first [ apply H2; by apply bool_decide_eq_true_1 in H1
               | apply H1; by apply bool_decide_eq_true_2 ]. }
  rewrite Hfilter. change 0 with (wrap 32 0) at 1. by rewrite fold_left_add32_sum.
Qed.

Lemma countOf_cons ty p l :
  countOf ty (p :: l)
  = (if decide (VkDescriptorPoolSize.type p = ty)
     then VkDescriptorPoolSize.descriptorCount p else 0) + countOf ty l.
Proof. unfold countOf. rewrite filter_cons. by case_decide. Qed.

Lemma countOf_without_tensors ty poolSizes :
  ty ≠ VK_DESCRIPTOR_TYPE_TENSOR_ARM →
  countOf ty (without_tensors poolSizes) = countOf ty poolSizes.
Proof.
  intros Hty. unfold without_tensors. induction poolSizes as [|p l IH]; [done|].
  rewrite filter_cons, (countOf_cons ty p l). case_decide as Hp.
  - by rewrite countOf_cons, IH.
  - rewrite IH. case_decide as Hp'; [|done]. exfalso. apply Hp.
    apply bool_decide_eq_false_2. unfold descriptor_type_of, pool_size_has_type. congruence.
Qed.

Lemma countOf_spec_fold_into_other ty ty' n l :
  ty ≠ ty' → countOf ty (spec_fold_into ty' n l) = countOf ty l.
Proof.
  intros Hty. induction l as [|p l IH]; cbn [spec_fold_into].
  - rewrite countOf_cons. cbn. by case_decide.
  - case_decide as Hp.
    + rewrite !countOf_cons. cbn. rewrite Hp. by repeat case_decide.
    + by rewrite !countOf_cons, IH.
Qed.

Lemma countOf_spec_fold_into ty n l :
  wrap 32 (countOf ty (spec_fold_into ty n l)) = wrap 32 (countOf ty l + n).
Proof.
  induction l as [|p l IH]; cbn [spec_fold_into].
  - rewrite countOf_cons. cbn. case_decide; [|done]. f_equal. unfold countOf. cbn. lia.
  - case_decide as Hp.
    + rewrite !countOf_cons. cbn. rewrite !decide_True by done.
      unfold add32. rewrite wrap32_add_l. f_equal. lia.
    + rewrite !countOf_cons, !decide_False by done.
      rewrite !Z.add_0_l. exact IH.
Qed.

(** X18: the rewrite keeps the number of descriptors, modulo 2^32: the
    uniform-buffer counts of the result add up to the uniform-buffer counts
    plus the tensor counts of the incoming list, and the storage-buffer
    counts to the incoming storage-buffer counts, plus the tensor counts in
    the experimental build. *)
Theorem substituteTensorDescriptorPoolSizes_counts cfg poolSizes :
  wrap 32 (countOf VK_DESCRIPTOR_TYPE_UNIFORM_BUFFER
             (substituteTensorDescriptorPoolSizes cfg poolSizes))
  = wrap 32 (countOf VK_DESCRIPTOR_TYPE_UNIFORM_BUFFER poolSizes
             + countOf VK_DESCRIPTOR_TYPE_TENSOR_ARM poolSizes)
  ∧ wrap 32 (countOf VK_DESCRIPTOR_TYPE_STORAGE_BUFFER
               (substituteTensorDescriptorPoolSizes cfg poolSizes))
    = wrap 32 (countOf VK_DESCRIPTOR_TYPE_STORAGE_BUFFER poolSizes
               + if EXPERIMENTAL_MOLTEN_VK_SUPPORT cfg
                 then countOf VK_DESCRIPTOR_TYPE_TENSOR_ARM poolSizes else 0).
Proof.
  rewrite substituteTensorDescriptorPoolSizes_eq.
  pose proof (tensor_total_countOf poolSizes) as Htotal.
  assert (Hub : countOf VK_DESCRIPTOR_TYPE_UNIFORM_BUFFER (without_tensors poolSizes)
                = countOf VK_DESCRIPTOR_TYPE_UNIFORM_BUFFER poolSizes)
    by by apply countOf_without_tensors.
  assert (Hsb : countOf VK_DESCRIPTOR_TYPE_STORAGE_BUFFER (without_tensors poolSizes)
                = countOf VK_DESCRIPTOR_TYPE_STORAGE_BUFFER poolSizes)
    by by apply countOf_without_tensors.
  case_decide as Hz.
  - rewrite Hub, Hsb. rewrite Hz in Htotal. split.
    + by rewrite <- wrap32_add_r, <- Htotal, Z.add_0_r.
    + destruct (EXPERIMENTAL_MOLTEN_VK_SUPPORT cfg); [|by rewrite Z.add_0_r].
      by rewrite <- wrap32_add_r, <- Htotal, Z.add_0_r.
  - destruct (EXPERIMENTAL_MOLTEN_VK_SUPPORT cfg); split.
    + rewrite countOf_spec_fold_into_other by done.
      by rewrite countOf_spec_fold_into, Hub, Htotal, wrap32_add_r.
    + rewrite countOf_spec_fold_into, countOf_spec_fold_into_other by done.
      by rewrite Hsb, Htotal, wrap32_add_r.
    + by rewrite countOf_spec_fold_into, Hub, Htotal, wrap32_add_r.
    + rewrite countOf_spec_fold_into_other by done. by rewrite Hsb, Z.add_0_r.
Qed.

Lemma filter_spec_fold_into (P : VkDescriptorPoolSize.t → Prop)
    `{∀ p, Decision (P p)} ty n l :
  (∀ p, VkDescriptorPoolSize.type p = ty → ¬ P p) →
  filter P (spec_fold_into ty n l) = filter P l.
Proof.
  intros Hty. induction l as [|p l IH]; cbn [spec_fold_into].
  - rewrite filter_cons, decide_False; [done|]. by apply Hty.
  - case_decide as Hp.
    + rewrite !filter_cons, !decide_False; [done|by apply Hty|by apply Hty].
    + by rewrite !filter_cons, IH.
Qed.

(** X19: the entries of the types the rewrite does not touch (every type
    but tensor and uniform buffer, and storage buffer in the experimental
    build) come out as they went in, in the same order. *)
Theorem substituteTensorDescriptorPoolSizes_other_types cfg poolSizes :
  filter (λ p, VkDescriptorPoolSize.type p ∉ rewrittenTypes cfg)
    (substituteTensorDescriptorPoolSizes cfg poolSizes)
  = filter (λ p, VkDescriptorPoolSize.type p ∉ rewrittenTypes cfg) poolSizes.
Proof.
  rewrite substituteTensorDescriptorPoolSizes_eq.
  assert (Htensor : ∀ p, hasTensor p = true →
                         ¬ (VkDescriptorPoolSize.type p ∉ rewrittenTypes cfg)).
  { intros p Hp Hnot. apply Hnot. apply bool_decide_eq_true_1 in Hp.
    unfold descriptor_type_of, pool_size_has_type in Hp. rewrite Hp.
    apply list_elem_of_here. }
  assert (Huniform : ∀ p, VkDescriptorPoolSize.type p = VK_DESCRIPTOR_TYPE_UNIFORM_BUFFER →
                          ¬ (VkDescriptorPoolSize.type p ∉ rewrittenTypes cfg)).
  { intros p Hp Hnot. apply Hnot. rewrite Hp.
    apply list_elem_of_further, list_elem_of_here. }
  assert (Hw : filter (λ p, VkDescriptorPoolSize.type p ∉ rewrittenTypes cfg)
                 (without_tensors poolSizes)
               = filter (λ p, VkDescriptorPoolSize.type p ∉ rewrittenTypes cfg) poolSizes).
  { unfold without_tensors. induction poolSizes as [|p l IH]; [done|].
    rewrite (filter_cons (λ p, hasTensor p = false)).
    destruct (decide (hasTensor p = false)) as [Hp|Hp].
    - by rewrite !filter_cons, IH.
    - rewrite IH, filter_cons, decide_False; [done|].
      apply Htensor. by destruct (hasTensor p). }
  case_decide as Hz; [exact Hw|].
  destruct (EXPERIMENTAL_MOLTEN_VK_SUPPORT cfg) eqn:Hexp.
  - rewrite !filter_spec_fold_into; [exact Hw|exact Huniform|].
    intros p Hp Hnot. apply Hnot. rewrite Hp. unfold rewrittenTypes. rewrite Hexp.
    do 2 apply list_elem_of_further. apply list_elem_of_here.
  - rewrite filter_spec_fold_into; [exact Hw|exact Huniform].
Qed.

(** ** Witnesses of properties stated earlier *)

Lemma getConstVector_null_rank_witness :
  getConstVector example_module 2 Z uint32_t 5 = Some AssertionFailed.
Proof.
  refine (getConstVector_null_rank example_module 1 Z uint32_t 5
            (TensorARM_type (Integer 32 false) 10 1)
            {| element_type := Integer 32 false; rank_id := 10; shape_id := 1 |}
            [2; 3] eq_refl eq_refl eq_refl _).
  cbn. lia.
Defined.

Lemma substituteTensorWriteDescriptorSet_aliasing_single_witness :
  ∃ st' write',
    substituteTensorWriteDescriptorSet default_build
      example_getDescriptorBuffer example_getTensorBuffer ()
      [VkWriteDescriptorSet.mk
         VK_STRUCTURE_TYPE_WRITE_DESCRIPTOR_SET [] 1 0 0 1 VK_DESCRIPTOR_TYPE_STORAGE_IMAGE
         (caller_array [VkDescriptorImageInfo.mk 0 101 VK_IMAGE_LAYOUT_TENSOR_ALIASING_ARM])
         nullptr nullptr]
    = Ok st'
    ∧ writes st' = [write']
    ∧ readable (imageInfos st') (VkWriteDescriptorSet.pImageInfo write')
      = [VkDescriptorImageInfo.mk 0 101 VK_IMAGE_LAYOUT_GENERAL].
Proof.
  destruct (substituteTensorWriteDescriptorSet_aliasing_single default_build
              example_getDescriptorBuffer example_getTensorBuffer ()
              (VkWriteDescriptorSet.mk
                 VK_STRUCTURE_TYPE_WRITE_DESCRIPTOR_SET [] 1 0 0 1
                 VK_DESCRIPTOR_TYPE_STORAGE_IMAGE
                 (caller_array
                    [VkDescriptorImageInfo.mk 0 101 VK_IMAGE_LAYOUT_TENSOR_ALIASING_ARM])
                 nullptr nullptr)
              (VkDescriptorImageInfo.mk 0 101 VK_IMAGE_LAYOUT_TENSOR_ALIASING_ARM)
              eq_refl eq_refl eq_refl)
    as (st' & write' & Hcall & Hwrites & _ & Hread).
  exists st', write'. split; [exact Hcall|]. split; [exact Hwrites|exact Hread].
Defined.
